(** * Employee pair overlap analysis: a verified model of [simple-server.js]

    The development embeds the analysis engine of [src/simple-server.js]
    ([parseFlexibleDate], [parseCSVData], [calculateOverlap],
    [analyzeEmployees]) and proves properties of it.

    Conventions of the embedding.
    - A JavaScript [Date] is its time value: the number of milliseconds since
      the epoch, an integer of [Z].  Every date the engine stores is a valid
      one, so [NaN] time values appear only as [None] results of the date
      constructors.
    - A JavaScript string is a [string] of characters with a code below 256
      (U+0000 to U+00FF); [undefined] is [None] of [option string].
    - Numbers are exact integers of [Z].  The engine's floating point results
      coincide with them for identifiers below 2^53 and for date differences of
      calendar dates with four-digit years.
    - The local time zone of the host is taken to be UTC, so that
      [new Date(year, month, day)] and [getFullYear] follow the UTC calendar.
    - [new Date()] reads the host clock: the engine runs in a small state
      monad that counts the clock reads and asks an oracle [now] for the value
      of each read. *)

From stdpp Require Import base gmap strings list pretty sorting.
From Stdlib Require Import ZArith Lia Ascii.

Open Scope Z_scope.

(** ** The JavaScript runtime functions the engine calls *)

Module JS.

(** *** Characters and strings *)

Definition code (c : ascii) : Z := Z.of_N (N_of_ascii c).

(** [\d] of a regular expression. *)
Definition isDigit (c : ascii) : bool :=
  (48 <=? code c) && (code c <=? 57).

(** White space and line terminators that [trim] and [parseInt] skip: of
    the characters with a code below 256 these are tab, line feed, vertical
    tab, form feed, carriage return, space and the no-break space U+00A0. *)
Definition isWhite (c : ascii) : bool :=
  ((9 <=? code c) && (code c <=? 13)) || (code c =? 32) || (code c =? 160).

Fixpoint forallb (p : ascii -> bool) (s : string) : bool :=
  match s with
  | EmptyString => true
  | String c r => p c && forallb p r
  end.

Fixpoint trimStart (s : string) : string :=
  match s with
  | EmptyString => EmptyString
  | String c r => if isWhite c then trimStart r else s
  end.

(** [trimEnd] keeps a character when it is not white space or when something
    is left after it. *)
Fixpoint trimEnd (s : string) : string :=
  match s with
  | EmptyString => EmptyString
  | String c r =>
      match trimEnd r with
      | EmptyString => if isWhite c then EmptyString else String c EmptyString
      | r' => String c r'
      end
  end.

Definition trim (s : string) : string := trimEnd (trimStart s).

(** The capital letters with a code below 256: A to Z, and U+00C0 to U+00DE
    but for the multiplication sign U+00D7.  The small letter of each is 32
    further. *)
Definition isUpper (c : ascii) : bool :=
  ((65 <=? code c) && (code c <=? 90))
  || ((192 <=? code c) && (code c <=? 222) && negb (code c =? 215)).

Definition lowerChar (c : ascii) : ascii :=
  if isUpper c
  then ascii_of_N (N_of_ascii c + 32)
  else c.

Fixpoint toLowerCase (s : string) : string :=
  match s with
  | EmptyString => EmptyString
  | String c r => String (lowerChar c) (toLowerCase r)
  end.

(** [s.split(sep)] for a one-character separator: the pieces between the
    separators, empty pieces included. *)
Fixpoint split (sep : ascii) (s : string) : list string :=
  match s with
  | EmptyString => [EmptyString]
  | String c r =>
      if Ascii.eqb c sep then EmptyString :: split sep r
      else match split sep r with
           | p :: ps => String c p :: ps
           | [] => [String c EmptyString]
           end
  end.

(** *** [parseInt] *)

(** The value of a digit in the given radix, if it is one. *)
Definition digitValue (radix : Z) (c : ascii) : option Z :=
  let n := code c in
  let v := if (48 <=? n) && (n <=? 57) then n - 48
           else if (97 <=? n) && (n <=? 122) then n - 87
           else if (65 <=? n) && (n <=? 90) then n - 55
           else 99 in
  if v <? radix then Some v else None.

(** The longest prefix of digits, read most significant digit first:
    [None] when the prefix is empty. *)
Fixpoint digitsPrefix (radix : Z) (acc : option Z) (s : string) : option Z :=
  match s with
  | EmptyString => acc
  | String c r =>
      match digitValue radix c with
      | Some v => digitsPrefix radix (Some (radix * default 0 acc + v)) r
      | None => acc
      end
  end.

Definition stripSign (s : string) : bool * string :=
  match s with
  | String c r =>
      if Ascii.eqb c "-" then (true, r)
      else if Ascii.eqb c "+" then (false, r)
      else (false, s)
  | EmptyString => (false, s)
  end.

Definition stripHexPrefix (s : string) : Z * string :=
  match s with
  | String c0 (String c1 r) =>
      if Ascii.eqb c0 "0" && (Ascii.eqb c1 "x" || Ascii.eqb c1 "X")
      then (16, r) else (10, s)
  | _ => (10, s)
  end.

(** [parseInt(s)] with no radix argument; [None] is [NaN]. *)
Definition parseInt (s : string) : option Z :=
  let '(neg, s1) := stripSign (trimStart s) in
  let '(radix, s2) := stripHexPrefix s1 in
  match digitsPrefix radix None s2 with
  | Some n => Some (if neg : bool then - n else n)
  | None => None
  end.

(** [parseInt(v)] of a value that may be [undefined]: the argument is
    converted to the string ["undefined"], which has no digits. *)
Definition parseIntValue (v : option string) : option Z :=
  match v with
  | Some s => parseInt s
  | None => None
  end.

(** [a || b] on values that are strings or [undefined]: [a] when it is
    truthy (a non-empty string), otherwise [b]. *)
Definition or (a b : option string) : option string :=
  match a with
  | Some (String _ _) => a
  | _ => b
  end.

(** A value inside a template literal. *)
Definition show (v : option string) : string :=
  match v with
  | Some s => s
  | None => "undefined"
  end.

(** *** Dates (ECMAScript, section Date Objects) *)

Definition msPerDay : Z := 86400000.

Definition Day (t : Z) : Z := t / msPerDay.

Definition DayFromYear (y : Z) : Z :=
  365 * (y - 1970) + (y - 1969) / 4 - (y - 1901) / 100 + (y - 1601) / 400.

Definition DaysInYear (y : Z) : Z :=
  if negb (y mod 4 =? 0) then 365
  else if negb (y mod 100 =? 0) then 366
  else if negb (y mod 400 =? 0) then 365
  else 366.

Definition InLeapYear (y : Z) : Z := DaysInYear y - 365.

(** The number of days of the year before month [m] (0 is January). *)
Definition daysBeforeMonth (leap m : Z) : Z :=
  match m with
  | 0 => 0
  | 1 => 31
  | 2 => 59 + leap
  | 3 => 90 + leap
  | 4 => 120 + leap
  | 5 => 151 + leap
  | 6 => 181 + leap
  | 7 => 212 + leap
  | 8 => 243 + leap
  | 9 => 273 + leap
  | 10 => 304 + leap
  | 11 => 334 + leap
  | _ => 365 + leap
  end.

(** The largest year whose first day is not after the given day: an
    estimate from the mean length of a year, corrected by one. *)
Definition YearFromDay (d : Z) : Z :=
  let y := 1970 + (400 * d) / 146097 in
  if DayFromYear (y + 1) <=? d then y + 1
  else if DayFromYear y <=? d then y
  else y - 1.

Definition YearFromTime (t : Z) : Z := YearFromDay (Day t).

Definition DayWithinYear (t : Z) : Z := Day t - DayFromYear (YearFromTime t).

Definition MonthFromTime (t : Z) : Z :=
  let d := DayWithinYear t in
  let leap := InLeapYear (YearFromTime t) in
  if d <? 31 then 0
  else if d <? 59 + leap then 1
  else if d <? 90 + leap then 2
  else if d <? 120 + leap then 3
  else if d <? 151 + leap then 4
  else if d <? 181 + leap then 5
  else if d <? 212 + leap then 6
  else if d <? 243 + leap then 7
  else if d <? 273 + leap then 8
  else if d <? 304 + leap then 9
  else if d <? 334 + leap then 10
  else 11.

Definition DateFromTime (t : Z) : Z :=
  DayWithinYear t
  - daysBeforeMonth (InLeapYear (YearFromTime t)) (MonthFromTime t) + 1.

(** [MakeDay(year, month, date)]: months beyond the year and days beyond the
    month carry over. *)
Definition MakeDay (year month date : Z) : Z :=
  let ym := year + month / 12 in
  let mn := month mod 12 in
  DayFromYear ym + daysBeforeMonth (InLeapYear ym) mn + date - 1.

Definition MakeDate (day time : Z) : Z := day * msPerDay + time.

(** [TimeClip]: a time value beyond 8.64e15 ms is [NaN]. *)
Definition TimeClip (t : Z) : option Z :=
  if Z.abs t <=? 8640000000000000 then Some t else None.

(** [new Date(year, month, day)] on numbers that may be [NaN]: a year from
    0 to 99 means 1900 + year; [None] is an invalid date. *)
Definition newDateYMD (year month day : option Z) : option Z :=
  match year, month, day with
  | Some y, Some m, Some d =>
      let yr := if (0 <=? y) && (y <=? 99) then 1900 + y else y in
      TimeClip (MakeDate (MakeDay yr m d) 0)
  | _, _, _ => None
  end.

(** [Math.ceil(x / d)] for a positive divisor. *)
Definition ceilDiv (x d : Z) : Z := - ((- x) / d).

End JS.


(** ** The date normalizer: [parseFlexibleDate] *)

Module Normalizer.
Import JS.

(** The regular expressions of [parseFlexibleDate] the code tests. *)

(** [/^\d{8}$/] *)
Definition re_digits8 (s : string) : bool :=
  (String.length s =? 8)%nat && forallb isDigit s.

(** [\d{1,2}] and [\d{4}] on a whole piece. *)
Definition digits_1_2 (p : string) : bool :=
  forallb isDigit p && (1 <=? String.length p)%nat && (String.length p <=? 2)%nat.

Definition digits_n (n : nat) (p : string) : bool :=
  forallb isDigit p && (String.length p =? n)%nat.

(** [/^\d{1,2}S\d{1,2}S\d{4}$/] for the separator [S]: the digits hold no
    separator, so the text matches when splitting it on [S] leaves those three
    pieces. *)
Definition re_dmy (sep : ascii) (s : string) : bool :=
  match split sep s with
  | [p0; p1; p2] => digits_1_2 p0 && digits_1_2 p1 && digits_n 4 p2
  | _ => false
  end.

(** [parseInt(p) - 1] *)
Definition monthIndex (p : string) : option Z := Z.pred <$> parseInt p.

(** The first attempt a block returns wins; a block that returns nothing lets
    the next one run. *)
Definition orElse {A} (a b : option A) : option A :=
  match a with
  | Some _ => a
  | None => b
  end.

Section ParseFlexibleDate.

(** [new Date(dateStr)], the host's parser of date text: [None] is an invalid
    date.  Outside the ISO format its result depends on the host. *)
Variable Date_parse : string -> option Z.

(** The YYYYMMDD block. *)
Definition tryYYYYMMDD (cleanStr : string) : option Z :=
  if re_digits8 cleanStr then
    let year := parseInt (String.substring 0 4 cleanStr) in
    let month := monthIndex (String.substring 4 2 cleanStr) in
    let day := parseInt (String.substring 6 2 cleanStr) in
    newDateYMD year month day
  else None.

(** The slash block: day first when the date built stays in the year
    written, month first otherwise. *)
Definition trySlash (cleanStr : string) : option Z :=
  if re_dmy "/" cleanStr then
    match split "/" cleanStr with
    | [p0; p1; p2] =>
        let monthFirst := newDateYMD (parseInt p2) (monthIndex p0) (parseInt p1) in
        match newDateYMD (parseInt p2) (monthIndex p1) (parseInt p0) with
        | Some t =>
            if bool_decide (Some (YearFromTime t) = parseInt p2) then Some t
            else monthFirst
        | None => monthFirst
        end
    | _ => None
    end
  else None.

(** The dot block: day, month, year. *)
Definition tryDot (cleanStr : string) : option Z :=
  if re_dmy "." cleanStr then
    match split "." cleanStr with
    | [p0; p1; p2] => newDateYMD (parseInt p2) (monthIndex p1) (parseInt p0)
    | _ => None
    end
  else None.

(** The dash block: day, month, year, once more checking that the last piece
    has four characters. *)
Definition tryDash (cleanStr : string) : option Z :=
  if re_dmy "-" cleanStr then
    match split "-" cleanStr with
    | [p0; p1; p2] =>
        if (String.length p2 =? 4)%nat
        then newDateYMD (parseInt p2) (monthIndex p1) (parseInt p0)
        else None
    | _ => None
    end
  else None.

(** [parseFlexibleDate(dateStr)]; [None] is the [null] the code returns both
    for an absent date and for text it cannot read. *)
Definition parseFlexibleDate (dateStr : option string) : option Z :=
  match dateStr with
  | None => None
  | Some s =>
      if String.eqb s EmptyString
         || String.eqb (toLowerCase s) "null"
         || String.eqb (trim s) EmptyString
      then None
      else
        match Date_parse s with
        | Some t => Some t
        | None =>
            let cleanStr := trim s in
            orElse (tryYYYYMMDD cleanStr)
              (orElse (trySlash cleanStr)
                 (orElse (tryDot cleanStr) (tryDash cleanStr)))
        end
  end.

End ParseFlexibleDate.

(** A host parser that reads the one format the language standard fixes, the
    calendar date [YYYY-MM-DD] taken at midnight UTC, and nothing else. *)
Definition Date_parse_iso (s : string) : option Z :=
  match split "-" s with
  | [py; pm; pd] =>
      if digits_n 4 py && digits_n 2 pm && digits_n 2 pd then
        match parseInt py, parseInt pm, parseInt pd with
        | Some y, Some m, Some d =>
            let leap := InLeapYear y in
            if (1 <=? m) && (m <=? 12) && (1 <=? d)
               && (d <=? daysBeforeMonth leap m - daysBeforeMonth leap (m - 1))
            then TimeClip (MakeDate (MakeDay y (m - 1) d) 0)
            else None
        | _, _, _ => None
        end
      else None
  | _ => None
  end.

End Normalizer.


(** ** The record parser: [parseCSVData] *)

Module Parser.
Import JS Normalizer.

(** One validated row of the table. *)
Record AssignmentRecord := mkRecord {
  empId : Z;
  projectId : Z;
  dateFrom : Z;
  dateTo : option Z
}.

(** A row as the table reader hands it over: an object from column names to
    the trimmed text of the cells. *)
Abbreviation Row := (gmap string string).

Definition dquote : string := String (ascii_of_N 34) EmptyString.

(** [`Row ${index + 1}: `] *)
Definition rowTag (index : nat) : string :=
  "Row " +:+ pretty (Z.of_nat index + 1) +:+ ": ".

(** The columns of a row, each under the names the code accepts for it. *)
Definition empIdText (row : Row) : option string :=
  or (or (row !! "EmpID") (row !! "empId")) (row !! "EmployeeID").

Definition projectIdText (row : Row) : option string :=
  or (or (row !! "ProjectID") (row !! "projectId")) (row !! "ProjectId").

Definition dateFromStr (row : Row) : option string :=
  or (or (row !! "DateFrom") (row !! "dateFrom")) (row !! "StartDate").

Definition dateToStr (row : Row) : option string :=
  or (or (row !! "DateTo") (row !! "dateTo")) (row !! "EndDate").

Section ParseCSVData.

Variable Date_parse : string -> option Z.

(** The body of [data.forEach((row, index) => ...)]: the records and the
    errors after the row.  Nothing in the body throws on the texts of a row,
    so the [catch] branch is never taken. *)
Definition processRow (index : nat) (row : Row)
    (st : list AssignmentRecord * list string)
    : list AssignmentRecord * list string :=
  let '(records, errors) := st in
  match parseIntValue (empIdText row), parseIntValue (projectIdText row) with
  | Some empId, Some projectId =>
      match parseFlexibleDate Date_parse (dateFromStr row) with
      | None =>
          (records,
           errors ++ [rowTag index +:+ "Invalid date format for DateFrom: "
                      +:+ dquote +:+ show (dateFromStr row) +:+ dquote])
      | Some dateFrom =>
          let dateTo := parseFlexibleDate Date_parse (dateToStr row) in
          (records ++ [mkRecord empId projectId dateFrom dateTo], errors)
      end
  | _, _ => (records, errors ++ [rowTag index +:+ "Invalid employee ID or project ID"])
  end.

Fixpoint forEachRow (index : nat) (data : list Row)
    (st : list AssignmentRecord * list string)
    : list AssignmentRecord * list string :=
  match data with
  | [] => st
  | row :: rest => forEachRow (S index) rest (processRow index row st)
  end.

(** The two arrays [records] and [errors] when the loop over the rows is
    over. *)
Definition parseRows (data : list Row) : list AssignmentRecord * list string :=
  forEachRow 0 data ([], []).

(** [parseCSVData] on the rows of the table: the promise is resolved with
    [records]; [errors] is written to the console and dropped. *)
Definition parseCSVData (data : list Row) : list AssignmentRecord :=
  fst (parseRows data).

End ParseCSVData.

(** A row of the four columns of the sample table. *)
Definition sampleRow (empId projectId dateFrom dateTo : string) : Row :=
  {[ "EmpID" := empId; "ProjectID" := projectId;
     "DateFrom" := dateFrom; "DateTo" := dateTo ]}.

(** The rows of [SAMPLE_CSV]. *)
Definition SAMPLE_CSV : list Row :=
  [ sampleRow "143" "12" "2013-11-01" "2014-01-05";
    sampleRow "218" "10" "2012-05-16" "NULL";
    sampleRow "218" "10" "2012-05-16" "2012-09-05";
    sampleRow "143" "10" "2009-01-01" "2011-04-27";
    sampleRow "143" "11" "2014-01-05" "2014-11-09";
    sampleRow "218" "12" "2014-11-09" "2015-01-05";
    sampleRow "143" "10" "2012-09-05" "2013-11-01";
    sampleRow "218" "11" "2014-01-05" "2014-11-09" ].

End Parser.


(** ** The overlap aggregator: [calculateOverlap] and [analyzeEmployees] *)

Module Aggregator.
Import JS Parser.

(** *** Reading the clock *)

(** A computation that reads the clock: from the number of reads made so far
    to its result and the number of reads made after it. *)
Definition Clock (A : Type) : Type := nat -> A * nat.

Definition ret {A} (a : A) : Clock A := fun k => (a, k).

Definition bind {A B} (m : Clock A) (f : A -> Clock B) : Clock B :=
  fun k => let '(a, k') := m k in f a k'.

Notation "'let*' x := m 'in' f" := (bind m (fun x => f))
  (at level 10, x name, m at level 100, f at level 200).

(** *** The data of the result *)

Record Detail := mkDetail {
  d_projectId : Z;
  overlapDays : Z;
  d_dateFrom : Z;
  d_dateTo : Z
}.

Record PairAggregate := mkPair {
  emp1 : Z;
  emp2 : Z;
  totalDays : Z;
  commonProjects : list Detail
}.

Record Summary := mkSummary {
  totalRecords : Z;
  uniqueEmployees : Z;
  uniqueProjects : Z;
  employeePairs : Z
}.

Record AnalysisResult := mkResult {
  topPair : string;
  allPairs : list PairAggregate;
  summary : Summary;
  processedData : list AssignmentRecord;
  errors : list string
}.

(** A JavaScript [Map]: the entries in insertion order, each key once. *)
Definition has {K V} `{EqDecision K} (k : K) (m : list (K * V)) : bool :=
  bool_decide (k ∈ m.*1).

Fixpoint get {K V} `{EqDecision K} (k : K) (m : list (K * V)) : option V :=
  match m with
  | [] => None
  | (k', v) :: rest => if decide (k = k') then Some v else get k rest
  end.

(** [m.set(k, v)]: a new key goes to the end, an old one keeps its place. *)
Fixpoint set {K V} `{EqDecision K} (k : K) (v : V) (m : list (K * V)) : list (K * V) :=
  match m with
  | [] => [(k, v)]
  | (k', v') :: rest =>
      if decide (k = k') then (k, v) :: rest else (k', v') :: set k v rest
  end.

(** The object stored under [k] changed in place. *)
Definition update {K V} `{EqDecision K} (k : K) (f : V -> V) (m : list (K * V)) : list (K * V) :=
  match get k m with
  | Some v => set k (f v) m
  | None => m
  end.

(** *** The engine as written *)

Section Engine.

(** The value the clock shows at each of its reads, the first one being read
    number 0. *)
Variable now : nat -> Z.

(** [new Date()] *)
Definition newDate : Clock Z := fun k => (now k, S k).

(** [end || new Date()]: the clock is read when [end] is [null]. *)
Definition orNow (e : option Z) : Clock Z :=
  match e with
  | Some t => ret t
  | None => newDate
  end.

Definition calculateOverlap (start1 : Z) (end1 : option Z) (start2 : Z) (end2 : option Z)
    : Clock Z :=
  let* actualEnd1 := orNow end1 in
  let* actualEnd2 := orNow end2 in
  let overlapStart := Z.max start1 start2 in
  let overlapEnd := Z.min actualEnd1 actualEnd2 in
  if overlapStart <=? overlapEnd
  then ret (ceilDiv (overlapEnd - overlapStart) (1000 * 60 * 60 * 24) + 1)
  else ret 0.

(** [`${Math.min(a, b)}-${Math.max(a, b)}`] *)
Definition pairKey (a b : Z) : string :=
  pretty (Z.min a b) +:+ "-" +:+ pretty (Z.max a b).

Definition addDays (overlap : Z) (pair : PairAggregate) : PairAggregate :=
  mkPair (emp1 pair) (emp2 pair) (totalDays pair + overlap) (commonProjects pair).

Definition pushDetail (d : Detail) (pair : PairAggregate) : PairAggregate :=
  mkPair (emp1 pair) (emp2 pair) (totalDays pair) (commonProjects pair ++ [d]).

(** The body of the two loops over the records of one project. *)
Definition pairStep (projectId : Z) (e1 e2 : AssignmentRecord)
    (pairMap : list (string * PairAggregate)) : Clock (list (string * PairAggregate)) :=
  let* overlap := calculateOverlap (dateFrom e1) (dateTo e1) (dateFrom e2) (dateTo e2) in
  if 0 <? overlap then
    let key := pairKey (empId e1) (empId e2) in
    let pairMap1 :=
      if has key pairMap then pairMap
      else set key (mkPair (Z.min (empId e1) (empId e2)) (Z.max (empId e1) (empId e2)) 0 [])
             pairMap in
    let pairMap2 := update key (addDays overlap) pairMap1 in
    let overlapStart := Z.max (dateFrom e1) (dateFrom e2) in
    let* to1 := orNow (dateTo e1) in
    let* to2 := orNow (dateTo e2) in
    let overlapEnd := Z.min to1 to2 in
    ret (update key (pushDetail (mkDetail projectId overlap overlapStart overlapEnd)) pairMap2)
  else ret pairMap.

(** [for (j = i + 1; j < employees.length; j++)]: the records after the one
    at [i], in order. *)
Fixpoint innerLoop (projectId : Z) (e1 : AssignmentRecord) (later : list AssignmentRecord)
    (pairMap : list (string * PairAggregate)) : Clock (list (string * PairAggregate)) :=
  match later with
  | [] => ret pairMap
  | e2 :: later' =>
      let* pairMap' := pairStep projectId e1 e2 pairMap in
      innerLoop projectId e1 later' pairMap'
  end.

(** [for (i = 0; i < employees.length; i++)] *)
Fixpoint outerLoop (projectId : Z) (employees : list AssignmentRecord)
    (pairMap : list (string * PairAggregate)) : Clock (list (string * PairAggregate)) :=
  match employees with
  | [] => ret pairMap
  | e1 :: later =>
      let* pairMap' := innerLoop projectId e1 later pairMap in
      outerLoop projectId later pairMap'
  end.

(** [projectGroups.forEach((employees, projectId) => ...)] *)
Fixpoint forEachGroup (groups : list (Z * list AssignmentRecord))
    (pairMap : list (string * PairAggregate)) : Clock (list (string * PairAggregate)) :=
  match groups with
  | [] => ret pairMap
  | (projectId, employees) :: rest =>
      let* pairMap' := outerLoop projectId employees pairMap in
      forEachGroup rest pairMap'
  end.

End Engine.

(** The first loop of [analyzeEmployees]: the records of each project, the
    projects in the order they are first met. *)
Definition addToGroup (groups : list (Z * list AssignmentRecord)) (record : AssignmentRecord)
    : list (Z * list AssignmentRecord) :=
  let groups1 :=
    if has (projectId record) groups then groups
    else set (projectId record) [] groups in
  update (projectId record) (fun l => l ++ [record]) groups1.

Definition groupByProject (data : list AssignmentRecord) : list (Z * list AssignmentRecord) :=
  foldl addToGroup [] data.

(** [sort((a, b) => b.totalDays - a.totalDays)]: more days first, pairs of
    equal days in the order they had. *)
Fixpoint insertPair (p : PairAggregate) (l : list PairAggregate) : list PairAggregate :=
  match l with
  | [] => [p]
  | q :: r => if totalDays p <? totalDays q then q :: insertPair p r else p :: q :: r
  end.

Definition sortPairs (l : list PairAggregate) : list PairAggregate :=
  foldr insertPair [] l.

(** [new Set(xs).size] *)
Definition countDistinct (xs : list Z) : Z :=
  Z.of_nat (size (list_to_set xs : gset Z)).

Definition headline (allPairs : list PairAggregate) : string :=
  match allPairs with
  | p :: _ =>
      "Employees " +:+ pretty (emp1 p) +:+ " and " +:+ pretty (emp2 p)
      +:+ " worked together for " +:+ pretty (totalDays p) +:+ " days"
  | [] => "No employee pairs found that worked together"
  end.

(** What [analyzeEmployees] returns once the pair map is filled. *)
Definition buildResult (data : list AssignmentRecord) (pairMap : list (string * PairAggregate))
    : AnalysisResult :=
  let errors := [] in
  let allPairs := sortPairs pairMap.*2 in
  mkResult (headline allPairs) allPairs
    (mkSummary (Z.of_nat (length data))
       (countDistinct (empId <$> data))
       (countDistinct (projectId <$> data))
       (Z.of_nat (length allPairs)))
    data errors.

Definition analyzeEmployees (now : nat -> Z) (data : list AssignmentRecord)
    : Clock AnalysisResult :=
  let* pairMap := forEachGroup now (groupByProject data) [] in
  ret (buildResult data pairMap).

(** *** The engine with one moment for every open end

    The aggregator as the specification words it: an open-ended record ends
    at the moment [asOf], which the caller captured once. *)

Definition effectiveEnd (asOf : Z) (e : option Z) : Z := default asOf e.

Definition calculateOverlapAsOf (asOf : Z) (start1 : Z) (end1 : option Z)
    (start2 : Z) (end2 : option Z) : Z :=
  let overlapStart := Z.max start1 start2 in
  let overlapEnd := Z.min (effectiveEnd asOf end1) (effectiveEnd asOf end2) in
  if overlapStart <=? overlapEnd
  then ceilDiv (overlapEnd - overlapStart) msPerDay + 1
  else 0.

Definition pairStepAsOf (asOf : Z) (projectId : Z) (e1 e2 : AssignmentRecord)
    (pairMap : list (string * PairAggregate)) : list (string * PairAggregate) :=
  let overlap := calculateOverlapAsOf asOf (dateFrom e1) (dateTo e1) (dateFrom e2) (dateTo e2) in
  if 0 <? overlap then
    let key := pairKey (empId e1) (empId e2) in
    let created :=
      if has key pairMap then pairMap
      else set key (mkPair (Z.min (empId e1) (empId e2)) (Z.max (empId e1) (empId e2)) 0 [])
             pairMap in
    let detail :=
      mkDetail projectId overlap (Z.max (dateFrom e1) (dateFrom e2))
        (Z.min (effectiveEnd asOf (dateTo e1)) (effectiveEnd asOf (dateTo e2))) in
    update key (pushDetail detail) (update key (addDays overlap) created)
  else pairMap.

Fixpoint groupPairsAsOf (asOf : Z) (projectId : Z) (employees : list AssignmentRecord)
    (pairMap : list (string * PairAggregate)) : list (string * PairAggregate) :=
  match employees with
  | [] => pairMap
  | e1 :: later =>
      groupPairsAsOf asOf projectId later
        (foldl (fun pm e2 => pairStepAsOf asOf projectId e1 e2 pm) pairMap later)
  end.

Definition analyzeEmployeesAsOf (asOf : Z) (data : list AssignmentRecord) : AnalysisResult :=
  buildResult data
    (foldl (fun pm g => groupPairsAsOf asOf g.1 g.2 pm) [] (groupByProject data)).

(** *** Notions and inputs the properties below refer to *)

(** The first id of an aggregate is not above the second. *)
Definition ordered (p : PairAggregate) : Prop := emp1 p <= emp2 p.

(** Two employees on one project since 1 January 2020, both still on it, and a
    clock that advances by one millisecond at each read, the first read being
    made one millisecond before midnight of 6 January 2020. *)
Definition twoOpenRecords : list AssignmentRecord :=
  [mkRecord 1 10 1577836800000 None; mkRecord 2 10 1577836800000 None].

Definition tickingClock (i : nat) : Z := 1578268799999 + Z.of_nat i.

End Aggregator.


(** ** Notions the properties below are stated with *)

Module Notions.
Import JS Normalizer Parser Aggregator.

Section RecordOfRow.

Variable Date_parse : string -> option Z.

(** The record of a row, when the row is accepted: both ids are numbers and
    the start date is read; the end date is whatever is read of it. *)
Definition recordOfRow (row : Row) : option AssignmentRecord :=
  match parseIntValue (empIdText row), parseIntValue (projectIdText row),
        parseFlexibleDate Date_parse (dateFromStr row) with
  | Some e, Some p, Some d =>
      Some (mkRecord e p d (parseFlexibleDate Date_parse (dateToStr row)))
  | _, _, _ => None
  end.

End RecordOfRow.

(** The date of the fields day, month and year, as [new Date] builds it. *)
Definition dateOf (y m d : Z) : Z :=
  MakeDay (if (0 <=? y) && (y <=? 99) then 1900 + y else y) (m - 1) d * msPerDay.

(** The text of a day, a month and a year put together with a separator. *)
Definition dmyToken (sep : ascii) (p0 p1 p2 : string) : string :=
  p0 +:+ String sep (p1 +:+ String sep p2).

(** A separator of the patterns: not a digit, not white space, not a capital
    letter. *)
Definition plainSep (sep : ascii) : bool :=
  negb (isDigit sep) && negb (isWhite sep) && negb (isUpper sep).

(** The sum of the days of the details of an aggregate. *)
Definition detailDays (ds : list Detail) : Z := foldr Z.add 0 (overlapDays <$> ds).

(** More days first. *)
Definition moreDays (p q : PairAggregate) : Prop := totalDays q <= totalDays p.

(** A record with an end date. *)
Definition closed (r : AssignmentRecord) : Prop := is_Some (dateTo r).

(** A detail whose interval starts no later than it ends and whose days are
    not above the days of that interval. *)
Definition detailFits (d : Detail) : Prop :=
  d_dateFrom d <= d_dateTo d
  /\ overlapDays d <= ceilDiv (d_dateTo d - d_dateFrom d) msPerDay + 1.

(** The clock reads an end takes: one when it is open. *)
Definition reads (e : option Z) : nat :=
  match e with
  | Some _ => 0
  | None => 1
  end.

(** A clock that shows one moment at its first four reads and another
    afterwards. *)
Definition stillForFour (i : nat) : Z :=
  if (i <? 4)%nat then 1578268800000 else 0.

End Notions.


(** ** The routes *)

Module Routes.
Import JS Parser Aggregator.

(** [s.endsWith(suffix)] *)
Definition endsWith (s suffix : string) : bool :=
  let n := String.length s in
  let m := String.length suffix in
  (m <=? n)%nat && String.eqb (String.substring (n - m) m s) suffix.

(** The file of an upload as the route sees it: the type and the name the
    client gave, and the rows the table reader makes of its text, [None] when
    reading the file or the table throws. *)
Record UploadedFile := mkFile {
  mimetype : string;
  originalname : string;
  table : option (list Row)
}.

(** The [fileFilter] of the upload: a file it refuses is dropped, and the
    route finds no file. *)
Definition fileFilter (file : UploadedFile) : bool :=
  String.eqb (mimetype file) "text/csv" || endsWith (originalname file) ".csv".

(** The JSON answer of a route and its status. *)
Inductive Body :=
  | Success (data : AnalysisResult)
  | Failure (error : string).

Record Response := mkResponse { status : Z; body : Body }.

Section Upload.

Variable Date_parse : string -> option Z.
Variable now : nat -> Z.

(** [POST /api/csv/upload] *)
Definition uploadRoute (upload : option UploadedFile) : Clock Response :=
  let file :=
    match upload with
    | Some f => if fileFilter f then Some f else None
    | None => None
    end in
  match file with
  | None => ret (mkResponse 400 (Failure "No file uploaded"))
  | Some f =>
      match table f with
      | None => ret (mkResponse 500 (Failure "Failed to process CSV file"))
      | Some rows =>
          let parsedData := parseCSVData Date_parse rows in
          if (length parsedData =? 0)%nat
          then ret (mkResponse 400 (Failure "No valid data found in CSV"))
          else
            let* result := analyzeEmployees now parsedData in
            ret (mkResponse 200 (Success result))
      end
  end.

End Upload.

End Routes.


(** * Properties *)

(** ** Facts about the runtime functions *)

Module JSFacts.
Import JS.

Lemma code_range c : 0 <= code c < 256.
Proof.
  unfold code. pose proof (N_ascii_bounded c). lia.
Qed.

Lemma ceilDiv_spec x d q : 0 < d -> ceilDiv x d = q <-> (q - 1) * d < x <= q * d.
Proof.
  intros Hd. unfold ceilDiv.
  pose proof (Z.div_mod (- x) d) as E.
  pose proof (Z.mod_pos_bound (- x) d Hd) as B.
  split; intros H; nia.
Qed.

Lemma ceilDiv_nonneg x d : 0 < d -> 0 <= x -> 0 <= ceilDiv x d.
Proof.
  intros Hd Hx. unfold ceilDiv.
  pose proof (Z.div_mod (- x) d) as E.
  pose proof (Z.mod_pos_bound (- x) d Hd) as B. nia.
Qed.

Lemma isDigit_not_white c : isDigit c = true -> isWhite c = false.
Proof.
  unfold isDigit, isWhite. intros H.
  apply andb_true_iff in H as [H1 H2].
  apply Z.leb_le in H1. apply Z.leb_le in H2.
  repeat (apply orb_false_iff; split).
  - apply andb_false_iff; right. apply Z.leb_gt. lia.
  - apply Z.eqb_neq. lia.
  - apply Z.eqb_neq. lia.
Qed.

Lemma isDigit_not_upper c : isDigit c = true -> isUpper c = false.
Proof.
  unfold isDigit, isUpper. intros H.
  apply andb_true_iff in H as [H1 H2].
  apply Z.leb_le in H1. apply Z.leb_le in H2.
  apply orb_false_iff; split.
  - apply andb_false_iff; left. apply Z.leb_gt. lia.
  - apply andb_false_iff; left. apply andb_false_iff; left. apply Z.leb_gt. lia.
Qed.

Lemma isDigit_code c : isDigit c = true -> 48 <= code c <= 57.
Proof.
  unfold isDigit. intros H.
  apply andb_true_iff in H as [H1 H2].
  apply Z.leb_le in H1. apply Z.leb_le in H2. lia.
Qed.

Lemma code_eqb c c' : code c <> code c' -> Ascii.eqb c c' = false.
Proof.
  intros H. apply Ascii.eqb_neq. intros ->. apply H. reflexivity.
Qed.

Lemma digitValue_digit c : isDigit c = true -> digitValue 10 c = Some (code c - 48).
Proof.
  intros H. unfold digitValue. fold (isDigit c). rewrite H.
  apply isDigit_code in H.
  destruct (Z.ltb_spec (code c - 48) 10); [reflexivity | lia].
Qed.

Lemma trimStart_digits s : forallb isDigit s = true -> trimStart s = s.
Proof.
  destruct s as [|c r]; simpl; [reflexivity |].
  intros H. apply andb_true_iff in H as [H _].
  rewrite (isDigit_not_white _ H). reflexivity.
Qed.

Lemma trimEnd_digits s : forallb isDigit s = true -> trimEnd s = s.
Proof.
  induction s as [|c r IH]; simpl; [reflexivity |].
  intros H. apply andb_true_iff in H as [Hc Hr].
  rewrite (IH Hr), (isDigit_not_white _ Hc). destruct r; reflexivity.
Qed.

Lemma trim_digits s : forallb isDigit s = true -> trim s = s.
Proof.
  intros H. unfold trim. rewrite trimStart_digits, trimEnd_digits; auto.
Qed.

Lemma lowerChar_digit c : isDigit c = true -> lowerChar c = c.
Proof.
  intros H. unfold lowerChar. rewrite (isDigit_not_upper c H). reflexivity.
Qed.

Lemma toLowerCase_digits s : forallb isDigit s = true -> toLowerCase s = s.
Proof.
  induction s as [|c r IH]; simpl; [reflexivity |].
  intros H. apply andb_true_iff in H as [Hc Hr].
  rewrite (IH Hr), (lowerChar_digit _ Hc). reflexivity.
Qed.

(** Digits read from an accumulator: the digits of the text are appended to
    those read before. *)
Lemma digitsPrefix_digits s : forall a,
  forallb isDigit s = true ->
  exists v, digitsPrefix 10 (Some a) s = Some (a * 10 ^ Z.of_nat (String.length s) + v)
            /\ 0 <= v < 10 ^ Z.of_nat (String.length s).
Proof.
  induction s as [|c r IH]; intros a H.
  - exists 0. simpl. split; [f_equal; lia | lia].
  - simpl in H. apply andb_true_iff in H as [Hc Hr].
    cbn [digitsPrefix]. rewrite (digitValue_digit _ Hc). cbn [default from_option id].
    destruct (IH (10 * a + (code c - 48)) Hr) as (v & E & B).
    apply isDigit_code in Hc.
    exists ((code c - 48) * 10 ^ Z.of_nat (String.length r) + v).
    rewrite E. cbn [String.length].
    rewrite Nat2Z.inj_succ, Z.pow_succ_r by lia.
    split; [f_equal; lia | nia].
Qed.

(** [parseInt] of a non-empty text of decimal digits is the number the digits
    write. *)
Lemma parseInt_digits s :
  forallb isDigit s = true -> s <> EmptyString ->
  exists n, parseInt s = Some n /\ 0 <= n < 10 ^ Z.of_nat (String.length s).
Proof.
  intros H Hne. unfold parseInt. rewrite (trimStart_digits _ H).
  destruct s as [|c r]; [congruence |].
  pose proof H as H'. simpl in H'. apply andb_true_iff in H' as [Hc Hr].
  pose proof (isDigit_code _ Hc) as Bc.
  unfold stripSign.
  rewrite (code_eqb c "-") by (vm_compute (code "-"); lia).
  rewrite (code_eqb c "+") by (vm_compute (code "+"); lia).
  assert (stripHexPrefix (String c r) = (10, String c r)) as ->.
  { unfold stripHexPrefix. destruct r as [|c1 r1]; [reflexivity |].
    simpl in Hr. apply andb_true_iff in Hr as [Hc1 _].
    pose proof (isDigit_code _ Hc1) as Bc1.
    rewrite (code_eqb c1 "x") by (vm_compute (code "x"); lia).
    rewrite (code_eqb c1 "X") by (vm_compute (code "X"); lia).
    rewrite andb_false_r. reflexivity. }
  cbn [digitsPrefix]. rewrite (digitValue_digit _ Hc). cbn [default from_option id].
  destruct (digitsPrefix_digits r (10 * 0 + (code c - 48)) Hr) as (v & E & B).
  rewrite E. eexists; split; [reflexivity |].
  cbn [String.length]. rewrite Nat2Z.inj_succ, Z.pow_succ_r by lia. nia.
Qed.

Lemma append_assoc (s1 s2 s3 : string) : (s1 +:+ s2) +:+ s3 = s1 +:+ (s2 +:+ s3).
Proof.
  induction s1 as [|c r IH]; [reflexivity |].
  change (String c ((r +:+ s2) +:+ s3) = String c (r +:+ (s2 +:+ s3))).
  f_equal. exact IH.
Qed.

Lemma forallb_substring p n m s :
  forallb p s = true -> forallb p (String.substring n m s) = true.
Proof.
  revert n m. induction s as [|c r IH]; intros n m H.
  - destruct n, m; reflexivity.
  - simpl in H. apply andb_true_iff in H as [Hc Hr].
    destruct n as [|n]; simpl.
    + destruct m as [|m]; simpl; [reflexivity |].
      rewrite Hc. apply IH, Hr.
    + apply IH, Hr.
Qed.

Lemma length_substring n m s :
  (n + m <= String.length s)%nat -> String.length (String.substring n m s) = m.
Proof.
  revert n m. induction s as [|c r IH]; intros n m H; simpl in H.
  - destruct n, m; simpl; lia.
  - destruct n as [|n]; simpl.
    + destruct m as [|m]; simpl; [reflexivity |]. rewrite IH; lia.
    + apply IH. lia.
Qed.

End JSFacts.


Module DateFacts.
Import JS.

Lemma InLeapYear_range y : 0 <= InLeapYear y <= 1.
Proof.
  unfold InLeapYear, DaysInYear.
  repeat match goal with |- context [if ?b then _ else _] => destruct b end; lia.
Qed.

Lemma daysBeforeMonth_range leap m :
  0 <= leap <= 1 -> 0 <= daysBeforeMonth leap m <= 366.
Proof.
  intros H. unfold daysBeforeMonth.
  repeat match goal with |- context [match ?x with _ => _ end] => destruct x end; lia.
Qed.

(** The first day of a year is the day after the last day of the year
    before. *)
Lemma DayFromYear_succ y : DayFromYear (y + 1) = DayFromYear y + DaysInYear y.
Proof.
  unfold DayFromYear, DaysInYear.
  repeat match goal with |- context [if ?b then _ else _] => destruct b eqn:? end;
    rewrite ?negb_true_iff, ?negb_false_iff, ?Z.eqb_eq, ?Z.eqb_neq in *;
    Z.div_mod_to_equations; lia.
Qed.

(** [YearFromDay] is the year the day lies in. *)
Lemma YearFromDay_spec d :
  DayFromYear (YearFromDay d) <= d < DayFromYear (YearFromDay d + 1).
Proof.
  unfold YearFromDay.
  set (y := 1970 + 400 * d / 146097).
  assert (DayFromYear (y - 1) <= d < DayFromYear (y + 2)) as B.
  { unfold DayFromYear. subst y. Z.div_mod_to_equations. lia. }
  destruct (Z.leb_spec (DayFromYear (y + 1)) d) as [H1|H1].
  - replace (y + 1 + 1) with (y + 2) by lia. lia.
  - destruct (Z.leb_spec (DayFromYear y) d) as [H2|H2]; [lia |].
    replace (y - 1 + 1) with y by lia. lia.
Qed.

Lemma DayFromYear_bound y : -1 <= y <= 10010 -> -800000 <= DayFromYear y <= 3000000.
Proof.
  intros H. unfold DayFromYear. Z.div_mod_to_equations. lia.
Qed.

(** A date built from a year below 10000, a month below 100 and a day below
    100 is a valid date. *)
Lemma newDateYMD_valid y m d :
  0 <= y < 10000 -> -1 <= m < 100 -> 0 <= d < 100 ->
  newDateYMD (Some y) (Some m) (Some d)
  = Some (MakeDay (if (0 <=? y) && (y <=? 99) then 1900 + y else y) m d * msPerDay).
Proof.
  intros Hy Hm Hd. unfold newDateYMD, MakeDate, TimeClip.
  set (yr := if (0 <=? y) && (y <=? 99) then 1900 + y else y).
  assert (0 <= yr < 10000) as Hyr.
  { subst yr. destruct ((0 <=? y) && (y <=? 99)) eqn:E; [|lia].
    apply andb_true_iff in E as [E1 E2]. apply Z.leb_le in E1, E2. lia. }
  rewrite Z.add_0_r.
  assert (-1000000 <= MakeDay yr m d <= 4000000) as B.
  { unfold MakeDay.
    pose proof (daysBeforeMonth_range (InLeapYear (yr + m / 12)) (m mod 12)
                  (InLeapYear_range _)).
    assert (-1 <= yr + m / 12 <= 10010) as Hym by (Z.div_mod_to_equations; lia).
    pose proof (DayFromYear_bound _ Hym). lia. }
  destruct (Z.leb_spec (Z.abs (MakeDay yr m d * msPerDay)) 8640000000000000) as [|H];
    [reflexivity |].
  unfold msPerDay in H. lia.
Qed.

(** Months past December carry into the following years. *)
Lemma MakeDay_month_carry y m d : MakeDay y (m + 12) d = MakeDay (y + 1) m d.
Proof.
  unfold MakeDay.
  replace ((m + 12) / 12) with (m / 12 + 1)
    by (replace (m + 12) with (m + 1 * 12) by lia; rewrite Z.div_add by lia; reflexivity).
  replace ((m + 12) mod 12) with (m mod 12)
    by (replace (m + 12) with (m + 1 * 12) by lia; rewrite Z.mod_add by lia; reflexivity).
  replace (y + (m / 12 + 1)) with (y + 1 + m / 12) by lia. reflexivity.
Qed.

(** Days past the end of the month carry into the following days. *)
Lemma MakeDay_day_carry y m d n : MakeDay y m (d + n) = MakeDay y m d + n.
Proof. unfold MakeDay. lia. Qed.

End DateFacts.


Module NormalizerFacts.
Import JS Normalizer JSFacts DateFacts.

Section WithHostParser.

Variable Date_parse : string -> option Z.

(** When the host's parser fails, the result is that of the blocks that
    follow it, tried in order on the trimmed text. *)
Lemma parseFlexibleDate_fallback s :
  Date_parse s = None ->
  parseFlexibleDate Date_parse (Some s)
  = if String.eqb s EmptyString
       || String.eqb (toLowerCase s) "null"
       || String.eqb (trim s) EmptyString
    then None
    else orElse (tryYYYYMMDD (trim s))
           (orElse (trySlash (trim s)) (orElse (tryDot (trim s)) (tryDash (trim s)))).
Proof.
  intros H. unfold parseFlexibleDate. rewrite H. reflexivity.
Qed.

(** When the host's parser succeeds on a text that is not a null marker, its
    result is returned. *)
Lemma parseFlexibleDate_host s t :
  Date_parse s = Some t ->
  parseFlexibleDate Date_parse (Some s)
  = if String.eqb s EmptyString
       || String.eqb (toLowerCase s) "null"
       || String.eqb (trim s) EmptyString
    then None
    else Some t.
Proof.
  intros H. unfold parseFlexibleDate. rewrite H. reflexivity.
Qed.

Lemma String_eqb_length s1 s2 :
  String.length s1 <> String.length s2 -> String.eqb s1 s2 = false.
Proof.
  intros H. apply String.eqb_neq. intros ->. apply H. reflexivity.
Qed.

(** C10: a token of exactly eight digits that the host parser rejects is
    always read as a date, never as a failure: the first four digits are the
    year, the next two the month and the last two the day, and [MakeDay]
    carries a month above 12 or a day beyond the month into the following
    months and years instead of rejecting it. *)
Theorem parseFlexibleDate_eight_digits (s : string) :
  String.length s = 8%nat ->
  forallb isDigit s = true ->
  Date_parse s = None ->
  exists y m d,
    parseInt (String.substring 0 4 s) = Some y /\ 0 <= y < 10000 /\
    parseInt (String.substring 4 2 s) = Some m /\ 0 <= m < 100 /\
    parseInt (String.substring 6 2 s) = Some d /\ 0 <= d < 100 /\
    parseFlexibleDate Date_parse (Some s)
    = Some (MakeDay (if (0 <=? y) && (y <=? 99) then 1900 + y else y) (m - 1) d
            * msPerDay).
Proof.
  intros Hlen Hdig Hhost.
  assert (forall n k, (n + k <= 8)%nat -> k <> 0%nat ->
            exists v, parseInt (String.substring n k s) = Some v
                      /\ 0 <= v < 10 ^ Z.of_nat k) as Hfield.
  { intros n k Hnk Hk.
    pose proof (length_substring n k s ltac:(lia)) as Hl.
    destruct (parseInt_digits (String.substring n k s)) as (v & E & B).
    - apply forallb_substring, Hdig.
    - intros E. rewrite E in Hl. simpl in Hl. lia.
    - rewrite Hl in B. eauto. }
  destruct (Hfield 0%nat 4%nat) as (y & Ey & By); [lia | lia |].
  destruct (Hfield 4%nat 2%nat) as (m & Em & Bm); [lia | lia |].
  destruct (Hfield 6%nat 2%nat) as (d & Ed & Bd); [lia | lia |].
  change (10 ^ Z.of_nat 4) with 10000 in By.
  change (10 ^ Z.of_nat 2) with 100 in Bm, Bd.
  exists y, m, d. repeat (split; [assumption || lia |]).
  rewrite parseFlexibleDate_fallback by assumption.
  rewrite toLowerCase_digits, trim_digits by assumption.
  rewrite (String_eqb_length s EmptyString), (String_eqb_length s "null")
    by (rewrite Hlen; simpl; lia).
  cbn [orb].
  unfold tryYYYYMMDD, re_digits8, monthIndex.
  rewrite Hlen, Hdig, Ey, Em, Ed. cbn [Nat.eqb andb fmap option_fmap option_map].
  rewrite (newDateYMD_valid y (Z.pred m) d) by lia.
  reflexivity.
Qed.

(** C3 (as the code behaves): [parseFlexibleDate] never reports a failure on
    ["31/04/2020"].  When the host parser rejects the text, the day-first
    reading (day 31, month 4, year 2020) is built as 1 May 2020, which lies in
    the year written and so passes the guard; that date is returned.  The
    month-first reading, never tried, would be a date as well. *)
Theorem parseFlexibleDate_31_04_2020 :
  parseFlexibleDate Date_parse (Some "31/04/2020") <> None
  /\ (Date_parse "31/04/2020" = None ->
      parseFlexibleDate Date_parse (Some "31/04/2020") = Some 1588291200000)
  /\ newDateYMD (Some 2020) (Some 3) (Some 31) = Some 1588291200000
  /\ (YearFromTime 1588291200000, MonthFromTime 1588291200000,
      DateFromTime 1588291200000) = (2020, 4, 1)
  /\ newDateYMD (Some 2020) (Some 30) (Some 4) <> None.
Proof.
  assert (Date_parse "31/04/2020" = None ->
          parseFlexibleDate Date_parse (Some "31/04/2020") = Some 1588291200000) as Hfail.
  { intros H. rewrite parseFlexibleDate_fallback by assumption. vm_compute. reflexivity. }
  split; [| split; [exact Hfail | split; [| split]]].
  - destruct (Date_parse "31/04/2020") as [t|] eqn:E.
    + unfold parseFlexibleDate. rewrite E. vm_compute. discriminate.
    + rewrite Hfail by reflexivity. discriminate.
  - vm_compute. reflexivity.
  - vm_compute. reflexivity.
  - vm_compute. discriminate.
Qed.

End WithHostParser.

(** The host parser of the standard format rejects both tokens below. *)
Lemma parseFlexibleDate_eight_digits_witness :
  exists t,
    parseFlexibleDate Date_parse_iso (Some "20131301") = Some t
    /\ (YearFromTime t, MonthFromTime t, DateFromTime t) = (2014, 0, 1).
Proof.
  destruct (parseFlexibleDate_eight_digits Date_parse_iso "20131301")
    as (y & m & d & Ey & _ & Em & _ & Ed & _ & E);
    [reflexivity | reflexivity | reflexivity |].
  vm_compute in Ey, Em, Ed.
  injection Ey as <-. injection Em as <-. injection Ed as <-.
  eexists. split; [exact E |]. vm_compute. reflexivity.
Defined.

(** C3 as the specification states it fails: the call returns 1 May 2020. *)
Lemma parseFlexibleDate_31_04_2020_not_failure :
  parseFlexibleDate Date_parse_iso (Some "31/04/2020") = Some 1588291200000
  /\ parseFlexibleDate Date_parse_iso (Some "31/04/2020") <> None.
Proof.
  split; [vm_compute; reflexivity | vm_compute; discriminate].
Qed.

End NormalizerFacts.


Module ParserFacts.
Import JS Normalizer Parser Aggregator.

Section WithHostParser.

Variable Date_parse : string -> option Z.

(** A row adds one record or one error, and touches nothing that is there. *)
Lemma processRow_cases index row records errors :
  (exists r, processRow Date_parse index row (records, errors) = (records ++ [r], errors))
  \/ (exists e, processRow Date_parse index row (records, errors) = (records, errors ++ [e])).
Proof.
  unfold processRow.
  destruct (parseIntValue (empIdText row)), (parseIntValue (projectIdText row));
    try (right; eauto; fail).
  destruct (parseFlexibleDate Date_parse (dateFromStr row)); eauto.
Qed.

(** The error of a rejected row starts with the number of the row, counted
    from 1. *)
Lemma processRow_error_tag index row records errors e :
  processRow Date_parse index row (records, errors) = (records, errors ++ [e]) ->
  exists reason, e = "Row " +:+ pretty (Z.of_nat index + 1) +:+ ": " +:+ reason.
Proof.
  assert (forall reason, exists reason',
            rowTag index +:+ reason
            = "Row " +:+ pretty (Z.of_nat index + 1) +:+ ": " +:+ reason') as Htag.
  { intros reason. exists reason. unfold rowTag.
    rewrite !JSFacts.append_assoc. reflexivity. }
  unfold processRow.
  destruct (parseIntValue (empIdText row)), (parseIntValue (projectIdText row));
    try destruct (parseFlexibleDate Date_parse (dateFromStr row));
    intros H; pose proof (f_equal snd H) as H2; cbn [snd] in H2;
    try (apply app_inv_head in H2; injection H2 as <-; apply Htag).
  exfalso. apply (f_equal length) in H2. rewrite length_app in H2. simpl in H2. lia.
Qed.

Lemma forEachRow_app index l1 l2 st :
  forEachRow Date_parse index (l1 ++ l2) st
  = forEachRow Date_parse (index + length l1) l2 (forEachRow Date_parse index l1 st).
Proof.
  revert index st. induction l1 as [|row l1 IH]; intros index st; simpl.
  - rewrite Nat.add_0_r. reflexivity.
  - rewrite IH. f_equal. lia.
Qed.

(** The records found so far stay, in place, while later rows are read. *)
Lemma forEachRow_records_prefix index data st :
  st.1 `prefix_of` (forEachRow Date_parse index data st).1.
Proof.
  revert index st. induction data as [|row data IH]; intros index [records errors];
    cbn [forEachRow].
  - reflexivity.
  - etrans; [| apply IH].
    destruct (processRow_cases index row records errors) as [[r ->] | [e ->]]; cbn [fst].
    + apply prefix_app_r. reflexivity.
    + reflexivity.
Qed.

(** Every row ends as a record or as an error: none is lost, none counted
    twice. *)
Lemma forEachRow_counts index data st :
  (length (forEachRow Date_parse index data st).1
   + length (forEachRow Date_parse index data st).2
   = length st.1 + length st.2 + length data)%nat.
Proof.
  revert index st. induction data as [|row data IH]; intros index [records errors];
    cbn [forEachRow].
  - simpl. lia.
  - rewrite IH.
    destruct (processRow_cases index row records errors) as [[r ->] | [e ->]];
      cbn [fst snd]; rewrite length_app; simpl; lia.
Qed.

(** C8: a row whose employee id, project id and start date are valid is
    never rejected because of its end date: when the end-date text gives no
    date (the null marker, or text that cannot be read), the row becomes a
    record with a null end date and adds no error, wherever it stands in the
    table. *)
Theorem open_end_row_accepted (index : nat) (row : Row)
    (records : list AssignmentRecord) (errors : list string) (e p d : Z) :
  parseIntValue (empIdText row) = Some e ->
  parseIntValue (projectIdText row) = Some p ->
  parseFlexibleDate Date_parse (dateFromStr row) = Some d ->
  parseFlexibleDate Date_parse (dateToStr row) = None ->
  processRow Date_parse index row (records, errors)
  = (records ++ [mkRecord e p d None], errors)
  /\ forall before after,
       mkRecord e p d None ∈ parseCSVData Date_parse (before ++ row :: after).
Proof.
  intros He Hp Hd Hto.
  assert (forall i rs es, processRow Date_parse i row (rs, es)
                          = (rs ++ [mkRecord e p d None], es)) as Hrow.
  { intros i rs es. unfold processRow. rewrite He, Hp, Hd, Hto. reflexivity. }
  split; [apply Hrow |].
  intros before after. unfold parseCSVData, parseRows.
  rewrite forEachRow_app. cbn [forEachRow].
  destruct (forEachRow Date_parse 0 before ([], [])) as [rs es].
  rewrite Hrow.
  eapply elem_of_prefix; [| apply forEachRow_records_prefix].
  cbn [fst]. apply elem_of_app. right. apply list_elem_of_singleton. reflexivity.
Qed.

End WithHostParser.

Lemma open_end_row_accepted_witness :
  processRow Date_parse_iso 0 (sampleRow "7" "3" "2020-01-01" "sometime") ([], [])
  = ([mkRecord 7 3 1577836800000 None], [])
  /\ mkRecord 7 3 1577836800000 None
     ∈ parseCSVData Date_parse_iso
         ([sampleRow "x" "3" "2020-01-01" "NULL"]
          ++ sampleRow "7" "3" "2020-01-01" "sometime" :: []).
Proof.
  destruct (open_end_row_accepted Date_parse_iso 0
              (sampleRow "7" "3" "2020-01-01" "sometime") [] [] 7 3 1577836800000)
    as [H1 H2]; [reflexivity | reflexivity | reflexivity | reflexivity |].
  split; [exact H1 | apply H2].
Defined.

(** C2 (the code at a table with a rejected row): the parser builds the
    error of the rejected row, tagged with its row number, but resolves with
    the records only, and the result of the analysis holds an empty error
    list. *)
Theorem parse_errors_not_in_result :
  let data := [sampleRow "abc" "10" "2020-01-01" "2020-02-01";
               sampleRow "143" "10" "2020-01-01" "2020-02-01"] in
  parseRows Date_parse_iso data
  = ([mkRecord 143 10 1577836800000 (Some 1580515200000)],
     ["Row 1: Invalid employee ID or project ID"])
  /\ parseCSVData Date_parse_iso data
     = [mkRecord 143 10 1577836800000 (Some 1580515200000)]
  /\ errors (analyzeEmployees (fun _ => 1793491200000)
               (parseCSVData Date_parse_iso data) 0%nat).1 = [].
Proof.
  repeat split; vm_compute; reflexivity.
Qed.

End ParserFacts.


Module AggregatorFacts.
Import JS Normalizer Parser Aggregator JSFacts.

(** *** The clock monad and the maps *)

Lemma bind_eq {A B} (m : Clock A) (f : A -> Clock B) k :
  bind m f k = f (m k).1 (m k).2.
Proof. unfold bind. destruct (m k). reflexivity. Qed.

Section Maps.
Context {K V : Type} `{EqDecision K}.
Variable Q : V -> Prop.

Lemma Forall_set k v (m : list (K * V)) :
  Q v -> Forall (fun kv => Q kv.2) m -> Forall (fun kv => Q kv.2) (set k v m).
Proof.
  intros Hv. induction 1 as [|[k' v'] m Hx Hm IH]; simpl.
  - repeat constructor. exact Hv.
  - destruct (decide (k = k')); constructor; auto.
Qed.

Lemma Forall_get k v (m : list (K * V)) :
  Forall (fun kv => Q kv.2) m -> get k m = Some v -> Q v.
Proof.
  induction 1 as [|[k' v'] m Hx Hm IH]; simpl; [discriminate |].
  destruct (decide (k = k')); [intros [= <-]; exact Hx | exact IH].
Qed.

Lemma Forall_update k f (m : list (K * V)) :
  (forall v, Q v -> Q (f v)) ->
  Forall (fun kv => Q kv.2) m -> Forall (fun kv => Q kv.2) (update k f m).
Proof.
  intros Hf Hm. unfold update. destruct (get k m) as [v|] eqn:E; [| exact Hm].
  apply Forall_set; [| exact Hm]. apply Hf. eapply Forall_get; eauto.
Qed.

End Maps.

Lemma has_nil {V} (k : string) : has k ([] : list (string * V)) = false.
Proof. reflexivity. Qed.

Lemma update_singleton {V} (k : string) (f : V -> V) (v : V) :
  update k f [(k, v)] = [(k, f v)].
Proof.
  unfold update. simpl. rewrite !decide_True by reflexivity. reflexivity.
Qed.

(** *** The overlap of two intervals *)

Section WithClock.

Variable now : nat -> Z.

(** The clock is read once for each open end. *)
Lemma orNow_reads e k :
  (orNow now e k).2 = (k + (if e is None then 1 else 0))%nat.
Proof. destruct e; simpl; lia. Qed.

Lemma calculateOverlap_eq start1 end1 start2 end2 k :
  let r1 := orNow now end1 k in
  let r2 := orNow now end2 r1.2 in
  calculateOverlap now start1 end1 start2 end2 k
  = (if Z.max start1 start2 <=? Z.min r1.1 r2.1
     then ceilDiv (Z.min r1.1 r2.1 - Z.max start1 start2) msPerDay + 1
     else 0,
     r2.2).
Proof.
  cbv zeta. unfold calculateOverlap. rewrite !bind_eq.
  destruct (_ <=? _); reflexivity.
Qed.

Lemma calculateOverlap_comm start1 end1 start2 end2 k :
  calculateOverlap now start1 end1 start2 end2 k
  = calculateOverlap now start2 end2 start1 end1 k.
Proof.
  rewrite !calculateOverlap_eq.
  destruct end1, end2; cbn [orNow ret newDate fst snd];
    rewrite (Z.max_comm start1 start2); try reflexivity;
    match goal with |- context [Z.min ?a ?b] => rewrite (Z.min_comm a b) end;
    reflexivity.
Qed.

(** C9: the overlap does not depend on the order in which the two intervals
    are given, whatever the clock shows for the open ends; in particular
    with one moment standing for every open end. *)
Theorem calculateOverlap_symmetric (start1 : Z) (end1 : option Z)
    (start2 : Z) (end2 : option Z) (k : nat) (asOf : Z) :
  calculateOverlap now start1 end1 start2 end2 k
  = calculateOverlap now start2 end2 start1 end1 k
  /\ calculateOverlapAsOf asOf start1 end1 start2 end2
     = calculateOverlapAsOf asOf start2 end2 start1 end1.
Proof.
  split.
  - apply calculateOverlap_comm.
  - unfold calculateOverlapAsOf.
    rewrite (Z.max_comm start1 start2),
      (Z.min_comm (effectiveEnd asOf end1) (effectiveEnd asOf end2)).
    reflexivity.
Qed.

(** *** One pair of records *)

Lemma pairStep_eq projectId e1 e2 pairMap k :
  let ov := calculateOverlap now (dateFrom e1) (dateTo e1) (dateFrom e2) (dateTo e2) k in
  let to1 := orNow now (dateTo e1) ov.2 in
  let to2 := orNow now (dateTo e2) to1.2 in
  let key := pairKey (empId e1) (empId e2) in
  pairStep now projectId e1 e2 pairMap k
  = if 0 <? ov.1 then
      (update key
         (pushDetail (mkDetail projectId ov.1 (Z.max (dateFrom e1) (dateFrom e2))
                        (Z.min to1.1 to2.1)))
         (update key (addDays ov.1)
            (if has key pairMap then pairMap
             else set key (mkPair (Z.min (empId e1) (empId e2))
                             (Z.max (empId e1) (empId e2)) 0 []) pairMap)),
       to2.2)
    else (pairMap, ov.2).
Proof.
  cbv zeta. unfold pairStep. rewrite bind_eq.
  destruct (0 <? _); [| reflexivity].
  rewrite !bind_eq. reflexivity.
Qed.

(** C7: on an empty list of records the aggregator returns, without reading
    the clock, the result whose four counts are zero, whose pair list is
    empty and whose headline says that no pair was found. *)
Theorem analyzeEmployees_empty (k : nat) :
  analyzeEmployees now [] k
  = (mkResult "No employee pairs found that worked together" []
       (mkSummary 0 0 0 0) [] [],
     k).
Proof. reflexivity. Qed.

(** The error list of a result is empty, whatever the records. *)
Lemma analyzeEmployees_errors data k : errors (analyzeEmployees now data k).1 = [].
Proof.
  unfold analyzeEmployees. rewrite bind_eq. reflexivity.
Qed.

(** *** The engine under a clock that stands still *)

Section ClockStandsStill.

Variable asOf : Z.
Hypothesis now_asOf : forall i, now i = asOf.

Lemma orNow_asOf e k : (orNow now e k).1 = effectiveEnd asOf e.
Proof. destruct e; simpl; auto. Qed.

Lemma calculateOverlap_asOf start1 end1 start2 end2 k :
  (calculateOverlap now start1 end1 start2 end2 k).1
  = calculateOverlapAsOf asOf start1 end1 start2 end2.
Proof.
  rewrite calculateOverlap_eq. cbv zeta. cbn [fst].
  rewrite !orNow_asOf. reflexivity.
Qed.

Lemma pairStep_asOf projectId e1 e2 pairMap k :
  (pairStep now projectId e1 e2 pairMap k).1 = pairStepAsOf asOf projectId e1 e2 pairMap.
Proof.
  rewrite pairStep_eq. cbv zeta. unfold pairStepAsOf.
  rewrite calculateOverlap_asOf.
  destruct (0 <? _); [| reflexivity].
  cbn [fst]. rewrite !orNow_asOf. reflexivity.
Qed.

Lemma innerLoop_asOf projectId e1 later : forall pairMap k,
  (innerLoop now projectId e1 later pairMap k).1
  = foldl (fun pm e2 => pairStepAsOf asOf projectId e1 e2 pm) pairMap later.
Proof.
  induction later as [|e2 later IH]; intros pairMap k; cbn [innerLoop foldl].
  - reflexivity.
  - rewrite bind_eq, IH, pairStep_asOf. reflexivity.
Qed.

Lemma outerLoop_asOf projectId employees : forall pairMap k,
  (outerLoop now projectId employees pairMap k).1
  = groupPairsAsOf asOf projectId employees pairMap.
Proof.
  induction employees as [|e1 later IH]; intros pairMap k;
    cbn [outerLoop groupPairsAsOf].
  - reflexivity.
  - rewrite bind_eq, IH, innerLoop_asOf. reflexivity.
Qed.

Lemma forEachGroup_asOf groups : forall pairMap k,
  (forEachGroup now groups pairMap k).1
  = foldl (fun pm g => groupPairsAsOf asOf g.1 g.2 pm) pairMap groups.
Proof.
  induction groups as [|[projectId employees] groups IH]; intros pairMap k;
    cbn [forEachGroup foldl].
  - reflexivity.
  - rewrite bind_eq, IH, outerLoop_asOf. reflexivity.
Qed.

Lemma analyzeEmployees_asOf data k :
  (analyzeEmployees now data k).1 = analyzeEmployeesAsOf asOf data.
Proof.
  unfold analyzeEmployees, analyzeEmployeesAsOf.
  rewrite bind_eq. cbn [ret fst]. rewrite forEachGroup_asOf. reflexivity.
Qed.

End ClockStandsStill.

(** *** The two ids of an aggregate *)

Lemma pairStep_ordered projectId e1 e2 pairMap k :
  Forall (fun kv => ordered kv.2) pairMap ->
  Forall (fun kv => ordered kv.2) (pairStep now projectId e1 e2 pairMap k).1.
Proof.
  intros H. rewrite pairStep_eq. cbv zeta.
  destruct (0 <? _); [| exact H]. cbn [fst].
  apply (Forall_update ordered); [intros v Hv; exact Hv |].
  apply (Forall_update ordered); [intros v Hv; exact Hv |].
  destruct (has _ _); [exact H |].
  apply (Forall_set ordered); [| exact H].
  unfold ordered. cbn [emp1 emp2]. lia.
Qed.

Lemma innerLoop_ordered projectId e1 later : forall pairMap k,
  Forall (fun kv => ordered kv.2) pairMap ->
  Forall (fun kv => ordered kv.2) (innerLoop now projectId e1 later pairMap k).1.
Proof.
  induction later as [|e2 later IH]; intros pairMap k H; cbn [innerLoop].
  - exact H.
  - rewrite bind_eq. apply IH, pairStep_ordered, H.
Qed.

Lemma outerLoop_ordered projectId employees : forall pairMap k,
  Forall (fun kv => ordered kv.2) pairMap ->
  Forall (fun kv => ordered kv.2) (outerLoop now projectId employees pairMap k).1.
Proof.
  induction employees as [|e1 later IH]; intros pairMap k H; cbn [outerLoop].
  - exact H.
  - rewrite bind_eq. apply IH, innerLoop_ordered, H.
Qed.

Lemma forEachGroup_ordered groups : forall pairMap k,
  Forall (fun kv => ordered kv.2) pairMap ->
  Forall (fun kv => ordered kv.2) (forEachGroup now groups pairMap k).1.
Proof.
  induction groups as [|[projectId employees] groups IH]; intros pairMap k H;
    cbn [forEachGroup].
  - exact H.
  - rewrite bind_eq. apply IH, outerLoop_ordered, H.
Qed.

Lemma insertPair_Forall (Q : PairAggregate -> Prop) p l :
  Q p -> Forall Q l -> Forall Q (insertPair p l).
Proof.
  intros Hp. induction 1 as [|q l Hq Hl IH]; simpl.
  - repeat constructor. exact Hp.
  - destruct (_ <? _); repeat constructor; auto.
Qed.

Lemma sortPairs_Forall (Q : PairAggregate -> Prop) l :
  Forall Q l -> Forall Q (sortPairs l).
Proof.
  induction 1 as [|p l Hp Hl IH]; simpl; [constructor |].
  apply insertPair_Forall; assumption.
Qed.

(** The first id of an aggregate is never above the second. *)
Lemma aggregates_ordered data k p :
  p ∈ allPairs (analyzeEmployees now data k).1 -> emp1 p <= emp2 p.
Proof.
  unfold analyzeEmployees. rewrite bind_eq. cbn [ret fst buildResult allPairs].
  revert p. apply Forall_forall, sortPairs_Forall, Forall_fmap.
  apply (forEachGroup_ordered (groupByProject data) [] k). constructor.
Qed.

End WithClock.

(** C4 as the specification states it fails: on these two records the clock
    is read four times, the overlap is counted up to one moment (six days)
    and the interval of the detail is closed at a later one, so that no single
    moment gives the same result. *)
Lemma clock_read_at_every_use :
  (analyzeEmployees tickingClock twoOpenRecords 0%nat).2 = 4%nat
  /\ ~ (exists asOf,
          (analyzeEmployees tickingClock twoOpenRecords 0%nat).1
          = analyzeEmployeesAsOf asOf twoOpenRecords).
Proof.
  split; [reflexivity |].
  intros [t H]. apply (f_equal allPairs) in H.
  assert (allPairs (analyzeEmployees tickingClock twoOpenRecords 0%nat).1
          = [mkPair 1 2 6 [mkDetail 10 6 1577836800000 1578268800001]]) as E
    by (vm_compute; reflexivity).
  rewrite E in H. clear E.
  unfold analyzeEmployeesAsOf, buildResult in H. cbn [allPairs] in H.
  change (groupByProject twoOpenRecords)
    with [(10, [mkRecord 1 10 1577836800000 None; mkRecord 2 10 1577836800000 None])] in H.
  cbn [foldl groupPairsAsOf fst snd] in H.
  unfold pairStepAsOf in H. cbn [dateFrom dateTo empId effectiveEnd default from_option id] in H.
  set (ov := calculateOverlapAsOf t 1577836800000 None 1577836800000 None) in H.
  destruct (0 <? ov); [| discriminate H].
  rewrite has_nil in H. cbn [set] in H. rewrite !update_singleton in H.
  cbn in H. injection H as H1 H2 H3.
  assert (t = 1578268800001) as -> by lia.
  vm_compute in ov. subst ov. discriminate.
Qed.

(** C1 (the code at the sample table): employee 218 has two records on
    project 10 that overlap, and the aggregator pairs them: the result holds
    an aggregate whose two ids are both 218. *)
Theorem sample_pairs_employee_with_itself :
  mkPair 218 218 113 [mkDetail 10 113 1337126400000 1346803200000]
  ∈ allPairs (analyzeEmployees (fun _ => 1793491200000)
                (parseCSVData Normalizer.Date_parse_iso SAMPLE_CSV) 0%nat).1.
Proof.
  vm_compute. apply list_elem_of_In. simpl. auto.
Qed.

End AggregatorFacts.


(** ** Further properties of the engine *)

(** ** Insertion-ordered maps *)

Module MapFacts.
Import Aggregator Notions.

Section Maps.
Context {K V : Type} `{EqDecision K}.
Implicit Types (k : K) (v : V) (m : list (K * V)).

Lemma has_get k m : has k m = bool_decide (is_Some (get k m)).
Proof.
  unfold has. induction m as [|[k' v'] m IH]; cbn [get fmap list_fmap fst].
  - apply bool_decide_ext. split; [intros []%elem_of_nil | intros [? [=]]].
  - destruct (decide (k = k')) as [->|Hne].
    + rewrite !bool_decide_eq_true_2; eauto. constructor.
    + rewrite <- IH. apply bool_decide_ext.
      rewrite elem_of_cons. split; [intros [? | ?]; [contradiction | assumption] | auto].
Qed.

Lemma has_true k m : has k m = true <-> k ∈ m.*1.
Proof. unfold has. apply bool_decide_eq_true. Qed.

Lemma has_false k m : has k m = false <-> k ∉ m.*1.
Proof. unfold has. apply bool_decide_eq_false. Qed.

Lemma get_None k m : get k m = None <-> k ∉ m.*1.
Proof.
  rewrite <- has_false, has_get.
  rewrite bool_decide_eq_false, <- eq_None_not_Some. reflexivity.
Qed.

Lemma get_set_eq k v m : get k (set k v m) = Some v.
Proof.
  induction m as [|[k' v'] m IH]; simpl.
  - rewrite decide_True by reflexivity. reflexivity.
  - destruct (decide (k = k')); simpl.
    + rewrite decide_True by reflexivity. reflexivity.
    + rewrite decide_False by assumption. exact IH.
Qed.

Lemma get_set_ne k k' v m : k <> k' -> get k' (set k v m) = get k' m.
Proof.
  intros Hne. induction m as [|[k0 v0] m IH]; simpl.
  - rewrite decide_False by congruence. reflexivity.
  - destruct (decide (k = k0)) as [->|]; simpl.
    + rewrite !decide_False by congruence. reflexivity.
    + destruct (decide (k' = k0)); [reflexivity | exact IH].
Qed.

Lemma set_set k v v' m : set k v' (set k v m) = set k v' m.
Proof.
  induction m as [|[k0 v0] m IH]; simpl.
  - rewrite decide_True by reflexivity. reflexivity.
  - destruct (decide (k = k0)) as [->|]; simpl.
    + rewrite decide_True by reflexivity. reflexivity.
    + rewrite decide_False by assumption. rewrite IH. reflexivity.
Qed.

(** Setting a key that is there keeps the keys; a new key goes last. *)
Lemma keys_set k v m :
  (set k v m).*1 = if has k m then m.*1 else m.*1 ++ [k].
Proof.
  induction m as [|[k0 v0] m IH].
  - reflexivity.
  - cbn [set]. destruct (decide (k = k0)) as [->|Hne].
    + replace (has k0 ((k0, v0) :: m)) with true; [reflexivity |].
      symmetry. apply has_true. constructor.
    + cbn [fmap list_fmap fst]. cbn [fmap] in IH. rewrite IH.
      destruct (has k m) eqn:E.
      * replace (has k ((k0, v0) :: m)) with true; [reflexivity |].
        symmetry. apply has_true. apply has_true in E. constructor 2. exact E.
      * replace (has k ((k0, v0) :: m)) with false; [reflexivity |].
        symmetry. apply has_false. apply has_false in E.
        cbn [fmap list_fmap fst]. rewrite not_elem_of_cons. auto.
Qed.

Lemma keys_update k f m : (update k f m).*1 = m.*1.
Proof.
  unfold update. destruct (get k m) as [v|] eqn:E; [| reflexivity].
  rewrite keys_set.
  replace (has k m) with true; [reflexivity |].
  symmetry. rewrite has_get. apply bool_decide_eq_true. eauto.
Qed.

Lemma get_update_eq k f m : get k (update k f m) = f <$> get k m.
Proof.
  unfold update. destruct (get k m) as [v|] eqn:E; simpl.
  - apply get_set_eq.
  - exact E.
Qed.

Lemma get_update_ne k k' f m : k <> k' -> get k' (update k f m) = get k' m.
Proof.
  intros Hne. unfold update. destruct (get k m); [| reflexivity].
  apply get_set_ne, Hne.
Qed.

(** Two changes of the object under a key are one change. *)
Lemma update_update k f g m : update k g (update k f m) = update k (fun v => g (f v)) m.
Proof.
  unfold update at 1. rewrite get_update_eq.
  unfold update. destruct (get k m) as [v|]; simpl; [| reflexivity].
  apply set_set.
Qed.

Lemma Forall_set_kv (P : K * V -> Prop) k v m :
  P (k, v) -> Forall P m -> Forall P (set k v m).
Proof.
  intros Hv. induction 1 as [|[k' v'] m Hx Hm IH]; simpl.
  - repeat constructor. exact Hv.
  - destruct (decide (k = k')); constructor; auto.
Qed.

Lemma Forall_get_kv (P : K * V -> Prop) k v m :
  Forall P m -> get k m = Some v -> P (k, v).
Proof.
  induction 1 as [|[k' v'] m Hx Hm IH]; simpl; [discriminate |].
  destruct (decide (k = k')) as [->|]; [intros [= <-]; exact Hx | exact IH].
Qed.

Lemma Forall_update_kv (P : K * V -> Prop) k f m :
  (forall v, P (k, v) -> P (k, f v)) -> Forall P m -> Forall P (update k f m).
Proof.
  intros Hf Hm. unfold update. destruct (get k m) as [v|] eqn:E; [| exact Hm].
  apply Forall_set_kv; [| exact Hm]. apply Hf. eapply Forall_get_kv; eauto.
Qed.

(** A key is looked up where it stands when the keys are all different. *)
Lemma get_elem_of k v m : NoDup m.*1 -> (k, v) ∈ m <-> get k m = Some v.
Proof.
  induction m as [|[k' v'] m IH]; cbn [get fmap list_fmap fst].
  - intros _. split; [intros []%elem_of_nil | discriminate].
  - intros Hnd. apply NoDup_cons in Hnd as [Hk' Hnd].
    rewrite elem_of_cons. destruct (decide (k = k')) as [->|Hne].
    + split; [| intros [= ->]; left; reflexivity].
      intros [[= ->] | Hin]; [reflexivity |].
      exfalso. apply Hk'. apply list_elem_of_fmap. exists (k', v). auto.
    + rewrite <- (IH Hnd). split; [| auto].
      intros [[= -> _] | Hin]; [congruence | exact Hin].
Qed.

End Maps.

End MapFacts.


Module GroupFacts.
Import Parser Aggregator MapFacts Notions.

Lemma groupByProject_snoc data r :
  groupByProject (data ++ [r]) = addToGroup (groupByProject data) r.
Proof. unfold groupByProject. rewrite foldl_app. reflexivity. Qed.

Lemma addToGroup_eq groups r :
  addToGroup groups r
  = if has (projectId r) groups
    then update (projectId r) (fun l => l ++ [r]) groups
    else set (projectId r) [r] groups.
Proof.
  unfold addToGroup. destruct (has (projectId r) groups) eqn:E; [reflexivity |].
  unfold update. rewrite get_set_eq, set_set. reflexivity.
Qed.

Lemma keys_addToGroup groups r :
  (addToGroup groups r).*1
  = if has (projectId r) groups then groups.*1 else groups.*1 ++ [projectId r].
Proof.
  rewrite addToGroup_eq. destruct (has (projectId r) groups) eqn:E.
  - apply keys_update.
  - rewrite keys_set, E. reflexivity.
Qed.

Lemma get_addToGroup groups r pid :
  get pid (addToGroup groups r)
  = if decide (projectId r = pid)
    then Some (default [] (get pid groups) ++ [r])
    else get pid groups.
Proof.
  rewrite addToGroup_eq.
  destruct (decide (projectId r = pid)) as [<-|Hne].
  - destruct (has (projectId r) groups) eqn:E.
    + rewrite get_update_eq. rewrite has_get in E.
      apply bool_decide_eq_true in E as [l ->]. reflexivity.
    + rewrite get_set_eq. rewrite has_get in E.
      apply bool_decide_eq_false in E. apply eq_None_not_Some in E.
      rewrite E. reflexivity.
  - destruct (has (projectId r) groups).
    + apply get_update_ne, Hne.
    + apply get_set_ne, Hne.
Qed.

Lemma groupByProject_keys_NoDup data : NoDup (groupByProject data).*1.
Proof.
  induction data as [|r data IH] using rev_ind.
  - constructor.
  - rewrite groupByProject_snoc, keys_addToGroup.
    destruct (has (projectId r) (groupByProject data)) eqn:E; [exact IH |].
    apply NoDup_app. split; [exact IH |]. split; [| apply NoDup_singleton].
    intros x Hx ->%list_elem_of_singleton.
    apply has_false in E. contradiction.
Qed.

Lemma groupByProject_get data pid :
  get pid (groupByProject data)
  = match filter (fun r => projectId r = pid) data with
    | [] => None
    | rs => Some rs
    end.
Proof.
  induction data as [|r data IH] using rev_ind.
  - reflexivity.
  - rewrite groupByProject_snoc, get_addToGroup, IH, filter_app.
    destruct (decide (projectId r = pid)) as [Heq|Hne].
    + rewrite (filter_cons_True _ r []) by exact Heq. rewrite filter_nil.
      destruct (filter _ data) as [|r0 rs]; reflexivity.
    + rewrite (filter_cons_False _ r []) by exact Hne. rewrite filter_nil, app_nil_r.
      reflexivity.
Qed.

Lemma groupByProject_elem_of data pid rs :
  (pid, rs) ∈ groupByProject data
  <-> rs = filter (fun r => projectId r = pid) data /\ rs <> [].
Proof.
  rewrite (get_elem_of _ _ _ (groupByProject_keys_NoDup data)), groupByProject_get.
  destruct (filter _ data) as [|r0 l]; split.
  - discriminate.
  - intros [-> H]. congruence.
  - intros [= <-]. split; [reflexivity | discriminate].
  - intros [-> _]. reflexivity.
Qed.

Lemma groupByProject_keys data pid :
  pid ∈ (groupByProject data).*1 <-> pid ∈ projectId <$> data.
Proof.
  rewrite list_elem_of_fmap. split.
  - intros [[pid' rs] [-> Hin]]. cbn [fst].
    apply groupByProject_elem_of in Hin as [-> Hne].
    destruct (filter _ data) as [|r0 l] eqn:E; [congruence |].
    assert (r0 ∈ filter (fun r => projectId r = pid') data) as Hr0
      by (rewrite E; constructor).
    apply list_elem_of_filter in Hr0 as [Hp Hr0].
    apply list_elem_of_fmap. exists r0. auto.
  - intros Hin. apply list_elem_of_fmap in Hin as [r [-> Hr]].
    exists (projectId r, filter (fun r' => projectId r' = projectId r) data).
    split; [reflexivity |]. apply groupByProject_elem_of. split; [reflexivity |].
    intros E. assert (r ∈ filter (fun r' => projectId r' = projectId r) data) as H
      by (apply list_elem_of_filter; auto).
    rewrite E in H. apply elem_of_nil in H. exact H.
Qed.

(** X1: the groups of [groupByProject]: the keys are the project ids of the
    input, each once; the group of a project holds the records of that
    project, all of them and in the order of the input, and no group is
    empty. *)
Theorem groupByProject_partition (data : list AssignmentRecord) :
  NoDup (groupByProject data).*1
  /\ (forall pid rs,
        (pid, rs) ∈ groupByProject data
        <-> rs = filter (fun r => projectId r = pid) data /\ rs <> [])
  /\ (forall pid, pid ∈ (groupByProject data).*1 <-> pid ∈ projectId <$> data).
Proof.
  split; [apply groupByProject_keys_NoDup |].
  split; [apply groupByProject_elem_of | apply groupByProject_keys].
Qed.

(** What holds of the records of the input holds of the records of the
    groups. *)
Lemma groupByProject_Forall (R : Z -> AssignmentRecord -> Prop) data :
  (forall r, r ∈ data -> R (projectId r) r) ->
  Forall (fun g => Forall (R g.1) g.2) (groupByProject data).
Proof.
  intros HR. apply Forall_forall. intros [pid rs] Hin.
  apply groupByProject_elem_of in Hin as [-> _].
  cbn [fst snd]. apply Forall_forall. intros r Hr.
  apply list_elem_of_filter in Hr as [<- Hr]. apply HR, Hr.
Qed.

End GroupFacts.


Module PairMapFacts.
Import JS Parser Aggregator MapFacts GroupFacts AggregatorFacts Notions.

Lemma detailDays_snoc ds d : detailDays (ds ++ [d]) = detailDays ds + overlapDays d.
Proof.
  unfold detailDays. rewrite fmap_app, foldr_app. cbn [fmap list_fmap foldr].
  generalize (overlapDays <$> ds). intros l.
  induction l as [|x l IH]; cbn [foldr]; lia.
Qed.

Section WithClock.

Variable now : nat -> Z.

(** The map after the body of the loops: the aggregate of the pair, created
    if it was not there, has the days added and the detail appended. *)
Lemma pairStep_map projectId e1 e2 pairMap k :
  let ov := (calculateOverlap now (dateFrom e1) (dateTo e1) (dateFrom e2) (dateTo e2) k).1 in
  let key := pairKey (empId e1) (empId e2) in
  exists d,
    d_projectId d = projectId /\ overlapDays d = ov /\
    (pairStep now projectId e1 e2 pairMap k).1
    = if 0 <? ov then
        if has key pairMap
        then update key (fun p => pushDetail d (addDays ov p)) pairMap
        else set key
               (pushDetail d
                  (addDays ov (mkPair (Z.min (empId e1) (empId e2))
                                 (Z.max (empId e1) (empId e2)) 0 [])))
               pairMap
      else pairMap.
Proof.
  cbv zeta. rewrite pairStep_eq. cbv zeta.
  eexists (mkDetail projectId _ _ _). split; [reflexivity |]. split; [reflexivity |].
  destruct (0 <? _); [| reflexivity]. cbn [fst].
  rewrite update_update.
  destruct (has _ pairMap); [reflexivity |].
  unfold update. rewrite get_set_eq, set_set. reflexivity.
Qed.

(** *** What the loops keep *)

Section Invariant.

(** [R pid r]: what is known of a record [r] in the group of project [pid];
    [P (key, pair)]: what is to hold of every entry of the pair map. *)
Variable R : Z -> AssignmentRecord -> Prop.
Variable P : string * PairAggregate -> Prop.

Hypothesis P_new : forall pid e1 e2 d,
  R pid e1 -> R pid e2 -> d_projectId d = pid -> 0 < overlapDays d ->
  P (pairKey (empId e1) (empId e2),
     pushDetail d
       (addDays (overlapDays d)
          (mkPair (Z.min (empId e1) (empId e2)) (Z.max (empId e1) (empId e2)) 0 []))).

Hypothesis P_old : forall pid e1 e2 d p,
  R pid e1 -> R pid e2 -> d_projectId d = pid -> 0 < overlapDays d ->
  P (pairKey (empId e1) (empId e2), p) ->
  P (pairKey (empId e1) (empId e2), pushDetail d (addDays (overlapDays d) p)).

Lemma pairStep_inv pid e1 e2 pairMap k :
  R pid e1 -> R pid e2 ->
  Forall P pairMap -> Forall P (pairStep now pid e1 e2 pairMap k).1.
Proof.
  intros H1 H2 Hm.
  destruct (pairStep_map pid e1 e2 pairMap k) as (d & Hpid & Hov & ->).
  rewrite <- Hov.
  destruct (Z.ltb_spec 0 (overlapDays d)) as [Hpos|]; [| exact Hm].
  destruct (has _ pairMap).
  - apply Forall_update_kv; [| exact Hm]. intros p Hp. eapply P_old; eauto.
  - apply Forall_set_kv; [| exact Hm]. eapply P_new; eauto.
Qed.

Lemma innerLoop_inv pid e1 later : forall pairMap k,
  R pid e1 -> Forall (R pid) later ->
  Forall P pairMap -> Forall P (innerLoop now pid e1 later pairMap k).1.
Proof.
  induction later as [|e2 later IH]; intros pairMap k H1 Hl Hm; cbn [innerLoop].
  - exact Hm.
  - apply Forall_cons in Hl as [H2 Hl].
    rewrite bind_eq. apply IH; [exact H1 | exact Hl |].
    apply pairStep_inv; assumption.
Qed.

Lemma outerLoop_inv pid employees : forall pairMap k,
  Forall (R pid) employees ->
  Forall P pairMap -> Forall P (outerLoop now pid employees pairMap k).1.
Proof.
  induction employees as [|e1 later IH]; intros pairMap k Hl Hm; cbn [outerLoop].
  - exact Hm.
  - apply Forall_cons in Hl as [H1 Hl].
    rewrite bind_eq. apply IH; [exact Hl |].
    apply innerLoop_inv; assumption.
Qed.

Lemma forEachGroup_inv groups : forall pairMap k,
  Forall (fun g => Forall (R g.1) g.2) groups ->
  Forall P pairMap -> Forall P (forEachGroup now groups pairMap k).1.
Proof.
  induction groups as [|[pid employees] groups IH]; intros pairMap k Hg Hm;
    cbn [forEachGroup].
  - exact Hm.
  - apply Forall_cons in Hg as [H1 Hg].
    rewrite bind_eq. apply IH; [exact Hg |].
    apply outerLoop_inv; assumption.
Qed.

(** The pair map of an analysis. *)
Lemma pairMap_inv data k :
  (forall r, r ∈ data -> R (projectId r) r) ->
  Forall P (forEachGroup now (groupByProject data) [] k).1.
Proof.
  intros HR. apply forEachGroup_inv; [| constructor].
  apply groupByProject_Forall, HR.
Qed.

End Invariant.

(** The keys of the pair map stay different from one another. *)
Lemma pairStep_keys pid e1 e2 pairMap k :
  NoDup pairMap.*1 -> NoDup (pairStep now pid e1 e2 pairMap k).1.*1.
Proof.
  intros Hm.
  destruct (pairStep_map pid e1 e2 pairMap k) as (d & _ & _ & ->).
  destruct (0 <? _); [| exact Hm].
  destruct (has _ pairMap) eqn:E.
  - rewrite keys_update. exact Hm.
  - rewrite keys_set, E. apply NoDup_app. split; [exact Hm |].
    split; [| apply NoDup_singleton].
    intros x Hx ->%list_elem_of_singleton. apply has_false in E. contradiction.
Qed.

Lemma innerLoop_keys pid e1 later : forall pairMap k,
  NoDup pairMap.*1 -> NoDup (innerLoop now pid e1 later pairMap k).1.*1.
Proof.
  induction later as [|e2 later IH]; intros pairMap k Hm; cbn [innerLoop].
  - exact Hm.
  - rewrite bind_eq. apply IH, pairStep_keys, Hm.
Qed.

Lemma outerLoop_keys pid employees : forall pairMap k,
  NoDup pairMap.*1 -> NoDup (outerLoop now pid employees pairMap k).1.*1.
Proof.
  induction employees as [|e1 later IH]; intros pairMap k Hm; cbn [outerLoop].
  - exact Hm.
  - rewrite bind_eq. apply IH, innerLoop_keys, Hm.
Qed.

Lemma forEachGroup_keys groups : forall pairMap k,
  NoDup pairMap.*1 -> NoDup (forEachGroup now groups pairMap k).1.*1.
Proof.
  induction groups as [|[pid employees] groups IH]; intros pairMap k Hm;
    cbn [forEachGroup].
  - exact Hm.
  - rewrite bind_eq. apply IH, outerLoop_keys, Hm.
Qed.

End WithClock.

(** *** The ranking *)

Lemma insertPair_Permutation p l : insertPair p l ≡ₚ p :: l.
Proof.
  induction l as [|q l IH]; simpl; [reflexivity |].
  destruct (_ <? _); [| reflexivity].
  rewrite IH. apply Permutation_swap.
Qed.

Lemma sortPairs_Permutation l : sortPairs l ≡ₚ l.
Proof.
  induction l as [|p l IH]; simpl; [reflexivity |].
  rewrite insertPair_Permutation. rewrite IH. reflexivity.
Qed.

Lemma insertPair_sorted p l :
  StronglySorted moreDays l -> StronglySorted moreDays (insertPair p l).
Proof.
  induction 1 as [|q l Hl IH Hq]; simpl.
  - repeat constructor.
  - destruct (Z.ltb_spec (totalDays p) (totalDays q)) as [Hlt|Hge].
    + constructor; [exact IH |].
      rewrite insertPair_Permutation. constructor; [unfold moreDays; lia | exact Hq].
    + constructor; [constructor; assumption |].
      constructor; [exact Hge |].
      eapply Forall_impl; [exact Hq |]. unfold moreDays. intros r Hr. lia.
Qed.

Lemma sortPairs_sorted l : StronglySorted moreDays (sortPairs l).
Proof.
  induction l as [|p l IH]; simpl; [constructor |].
  apply insertPair_sorted, IH.
Qed.

(** A list that is in order is left as it is: pairs of equal days keep the
    order they had. *)
Lemma sortPairs_id l : StronglySorted moreDays l -> sortPairs l = l.
Proof.
  induction 1 as [|p l Hl IH Hp]; simpl; [reflexivity |].
  rewrite IH. destruct l as [|q l]; [reflexivity |]. simpl.
  apply Forall_cons in Hp as [Hq _]. unfold moreDays in Hq.
  destruct (Z.ltb_spec (totalDays p) (totalDays q)); [lia | reflexivity].
Qed.

Lemma allPairs_analyze now data k :
  allPairs (analyzeEmployees now data k).1
  = sortPairs (forEachGroup now (groupByProject data) [] k).1.*2.
Proof.
  unfold analyzeEmployees. rewrite bind_eq. reflexivity.
Qed.

End PairMapFacts.


Module ResultFacts.
Import JS Parser Aggregator MapFacts GroupFacts AggregatorFacts PairMapFacts Notions.

Ltac simpl_pair :=
  cbn [fst snd pushDetail addDays totalDays commonProjects emp1 emp2] in *.

Section WithClock.

Variable now : nat -> Z.

(** X2: the total of an aggregate is the sum of the days of its details; it has
    at least one detail, each of at least one day, so that its total is at
    least one day. *)
Theorem aggregate_total_is_sum (data : list AssignmentRecord) (k : nat) :
  Forall (fun p =>
            totalDays p = detailDays (commonProjects p)
            /\ commonProjects p <> []
            /\ Forall (fun d => 1 <= overlapDays d) (commonProjects p)
            /\ 1 <= totalDays p)
    (allPairs (analyzeEmployees now data k).1).
Proof.
  rewrite allPairs_analyze, sortPairs_Permutation. apply Forall_fmap.
  set (Q := fun p => totalDays p = detailDays (commonProjects p)
                     /\ Forall (fun d => 1 <= overlapDays d) (commonProjects p)).
  eapply Forall_impl.
  - apply (pairMap_inv now (fun _ _ => True)
             (fun kv => Q kv.2 /\ commonProjects kv.2 <> [])); [| | auto].
    + intros pid e1 e2 d _ _ _ Hd. split; [split |]; simpl_pair.
      * rewrite detailDays_snoc. reflexivity.
      * repeat constructor. lia.
      * discriminate.
    + intros pid e1 e2 d p _ _ _ Hd [[Ht Hf] _]. split; [split |]; simpl_pair.
      * rewrite detailDays_snoc, Ht. reflexivity.
      * apply Forall_app. split; [exact Hf |]. repeat constructor. lia.
      * intros E. apply app_eq_nil in E as [_ [=]].
  - intros [key p] [[Ht Hf] Hne]. cbn [snd] in *.
    split; [exact Ht |]. split; [exact Hne |]. split; [exact Hf |].
    cbn [snd]. rewrite Ht. destruct (commonProjects p) as [|d ds]; [congruence |].
    apply Forall_cons in Hf as [Hd Hf]. unfold detailDays. cbn [fmap list_fmap foldr].
    assert (0 <= foldr Z.add 0 (overlapDays <$> ds)); [| lia].
    clear -Hf. induction Hf as [|d' ds Hd' Hf IH]; cbn [fmap list_fmap foldr]; lia.
Qed.

(** X3: the two ids of an aggregate are ids of the input, the smaller one first,
    and the project of each of its details is a project of the input. *)
Theorem aggregate_ids_from_input (data : list AssignmentRecord) (k : nat) :
  Forall (fun p =>
            emp1 p <= emp2 p
            /\ emp1 p ∈ empId <$> data
            /\ emp2 p ∈ empId <$> data
            /\ Forall (fun d => d_projectId d ∈ projectId <$> data) (commonProjects p))
    (allPairs (analyzeEmployees now data k).1).
Proof.
  rewrite allPairs_analyze, sortPairs_Permutation. apply Forall_fmap.
  assert (forall e1 e2 : AssignmentRecord, e1 ∈ data -> e2 ∈ data ->
            Z.min (empId e1) (empId e2) ∈ empId <$> data
            /\ Z.max (empId e1) (empId e2) ∈ empId <$> data) as Hminmax.
  { intros e1 e2 H1 H2.
    assert (empId e1 ∈ empId <$> data) by (apply list_elem_of_fmap; eauto).
    assert (empId e2 ∈ empId <$> data) by (apply list_elem_of_fmap; eauto).
    split.
    - destruct (Z.min_spec (empId e1) (empId e2)) as [[_ ->] | [_ ->]]; assumption.
    - destruct (Z.max_spec (empId e1) (empId e2)) as [[_ ->] | [_ ->]]; assumption. }
  apply (pairMap_inv now (fun pid r => r ∈ data /\ projectId r = pid)
           (fun kv => emp1 kv.2 <= emp2 kv.2
                      /\ emp1 kv.2 ∈ empId <$> data
                      /\ emp2 kv.2 ∈ empId <$> data
                      /\ Forall (fun d => d_projectId d ∈ projectId <$> data)
                           (commonProjects kv.2))); [| | auto].
  - intros pid e1 e2 d [H1 Hp1] [H2 _] Hd _. simpl_pair.
    destruct (Hminmax e1 e2 H1 H2) as [Hmin Hmax].
    repeat split; [lia | exact Hmin | exact Hmax |].
    repeat constructor. rewrite Hd, <- Hp1. apply list_elem_of_fmap. eauto.
  - intros pid e1 e2 d p [H1 Hp1] _ Hd _ (Hle & Hi1 & Hi2 & Hf). simpl_pair.
    repeat split; try assumption.
    apply Forall_app. split; [exact Hf |].
    repeat constructor. rewrite Hd, <- Hp1. apply list_elem_of_fmap. eauto.
Qed.

(** X4: no pair of employees has two aggregates. *)
Theorem aggregate_pairs_distinct (data : list AssignmentRecord) (k : nat) :
  NoDup ((fun p => (emp1 p, emp2 p)) <$> allPairs (analyzeEmployees now data k).1).
Proof.
  rewrite allPairs_analyze, sortPairs_Permutation.
  set (pm := (forEachGroup now (groupByProject data) [] k).1).
  assert (NoDup pm.*1) as Hnd by (apply forEachGroup_keys; constructor).
  assert (Forall (fun kv => kv.1 = pairKey (emp1 kv.2) (emp2 kv.2)) pm) as Hkey.
  { apply (pairMap_inv now (fun _ _ => True)
             (fun kv => kv.1 = pairKey (emp1 kv.2) (emp2 kv.2))); [| | auto].
    - intros pid e1 e2 d _ _ _ _. simpl_pair. unfold pairKey. f_equal; [f_equal; lia |].
      f_equal. f_equal. lia.
    - intros pid e1 e2 d p _ _ _ _ H. exact H. }
  assert (pm.*1 = (fun ab => pairKey ab.1 ab.2) <$> ((fun p => (emp1 p, emp2 p)) <$> pm.*2))
    as E.
  { clear Hnd. induction Hkey as [|[key p] l Hx Hl IH]; [reflexivity |].
    cbn [fmap list_fmap fst snd] in *. rewrite Hx. f_equal. exact IH. }
  rewrite E in Hnd. apply NoDup_fmap_1 in Hnd. exact Hnd.
Qed.

(** X5: the pairs are ranked by their days, most days first, and the headline
    names the first of them; without pairs it says so.  The number of pairs
    of the summary is the number of aggregates. *)
Theorem pairs_ranked (data : list AssignmentRecord) (k : nat) :
  let result := (analyzeEmployees now data k).1 in
  StronglySorted (fun p q => totalDays q <= totalDays p) (allPairs result)
  /\ employeePairs (summary result) = Z.of_nat (length (allPairs result))
  /\ match allPairs result with
     | [] => topPair result = "No employee pairs found that worked together"
     | top :: rest =>
         topPair result
         = "Employees " +:+ pretty (emp1 top) +:+ " and " +:+ pretty (emp2 top)
           +:+ " worked together for " +:+ pretty (totalDays top) +:+ " days"
         /\ Forall (fun q => totalDays q <= totalDays top) rest
     end.
Proof.
  cbv zeta.
  pose proof (allPairs_analyze now data k) as E.
  assert (StronglySorted moreDays (allPairs (analyzeEmployees now data k).1)) as Hs
    by (rewrite E; apply sortPairs_sorted).
  split; [exact Hs |].
  unfold analyzeEmployees in *. rewrite bind_eq in *.
  cbn [ret fst buildResult allPairs summary employeePairs topPair] in *.
  split; [reflexivity |].
  destruct (sortPairs _) as [|top rest]; [reflexivity |].
  split; [reflexivity |].
  apply StronglySorted_inv in Hs as [_ Hs]. exact Hs.
Qed.

End WithClock.

End ResultFacts.


Module AnalysisFacts.
Import JS Parser Aggregator MapFacts GroupFacts AggregatorFacts PairMapFacts Notions.

Section WithClock.

Variable now : nat -> Z.
Variable asOf : Z.

Lemma orNow_closed e k : is_Some e -> orNow now e k = (effectiveEnd asOf e, k).
Proof. intros [t ->]. reflexivity. Qed.

Lemma pairStep_closed pid e1 e2 pairMap k :
  closed e1 -> closed e2 ->
  pairStep now pid e1 e2 pairMap k = (pairStepAsOf asOf pid e1 e2 pairMap, k).
Proof.
  intros [t1 E1] [t2 E2].
  unfold pairStep, pairStepAsOf, calculateOverlap, calculateOverlapAsOf.
  rewrite E1, E2. cbn [effectiveEnd default from_option id].
  rewrite !bind_eq. cbn [orNow ret fst snd].
  change (1000 * 60 * 60 * 24) with msPerDay.
  destruct (_ <=? _); cbn [ret fst snd]; destruct (0 <? _);
    rewrite ?bind_eq; reflexivity.
Qed.

Lemma innerLoop_closed pid e1 later : forall pairMap k,
  closed e1 -> Forall closed later ->
  innerLoop now pid e1 later pairMap k
  = (foldl (fun pm e2 => pairStepAsOf asOf pid e1 e2 pm) pairMap later, k).
Proof.
  induction later as [|e2 later IH]; intros pairMap k H1 Hl; cbn [innerLoop foldl].
  - reflexivity.
  - apply Forall_cons in Hl as [H2 Hl].
    rewrite bind_eq, pairStep_closed by assumption. cbn [fst snd].
    apply IH; assumption.
Qed.

Lemma outerLoop_closed pid employees : forall pairMap k,
  Forall closed employees ->
  outerLoop now pid employees pairMap k
  = (groupPairsAsOf asOf pid employees pairMap, k).
Proof.
  induction employees as [|e1 later IH]; intros pairMap k Hl;
    cbn [outerLoop groupPairsAsOf].
  - reflexivity.
  - apply Forall_cons in Hl as [H1 Hl].
    rewrite bind_eq, innerLoop_closed by assumption. cbn [fst snd].
    apply IH; assumption.
Qed.

Lemma forEachGroup_closed groups : forall pairMap k,
  Forall (fun g => Forall closed g.2) groups ->
  forEachGroup now groups pairMap k
  = (foldl (fun pm g => groupPairsAsOf asOf g.1 g.2 pm) pairMap groups, k).
Proof.
  induction groups as [|[pid employees] groups IH]; intros pairMap k Hg;
    cbn [forEachGroup foldl].
  - reflexivity.
  - apply Forall_cons in Hg as [H1 Hg].
    rewrite bind_eq, outerLoop_closed by assumption. cbn [fst snd].
    apply IH; assumption.
Qed.

End WithClock.

(** X6: when every record of the input has an end date the analysis never reads
    the clock, and its result is that of the engine with one moment for the
    open ends, whatever that moment: the result does not depend on the time
    of the analysis. *)
Theorem closed_records_ignore_clock (now : nat -> Z) (asOf : Z)
    (data : list AssignmentRecord) (k : nat) :
  Forall (fun r => is_Some (dateTo r)) data ->
  analyzeEmployees now data k = (analyzeEmployeesAsOf asOf data, k).
Proof.
  intros Hc. unfold analyzeEmployees, analyzeEmployeesAsOf.
  rewrite bind_eq, (forEachGroup_closed now asOf).
  - reflexivity.
  - apply (groupByProject_Forall (fun _ r => closed r)).
    intros r Hr. eapply Forall_forall in Hc; eauto.
Qed.

Lemma closed_records_ignore_clock_witness :
  analyzeEmployees (fun i => Z.of_nat i) [mkRecord 1 10 0 (Some 86400000);
                                          mkRecord 2 10 0 (Some 172800000)] 5%nat
  = (analyzeEmployeesAsOf 77 [mkRecord 1 10 0 (Some 86400000);
                                mkRecord 2 10 0 (Some 172800000)], 5%nat).
Proof.
  apply closed_records_ignore_clock.
  repeat constructor; eexists; reflexivity.
Defined.

Lemma filter_NoDup_key {A} (f : A -> Z) (y : Z) (l : list A) :
  NoDup (f <$> l) -> (length (filter (fun x => f x = y) l) <= 1)%nat.
Proof.
  induction l as [|x l IH]; [simpl; lia |].
  cbn [fmap list_fmap]. intros [Hx Hl]%NoDup_cons.
  destruct (decide (f x = y)) as [Hy|Hy].
  - rewrite filter_cons_True by exact Hy.
    assert (filter (fun x0 => f x0 = y) l = []) as ->; [| simpl; lia].
    destruct (filter (fun x0 => f x0 = y) l) as [|z zs] eqn:E; [reflexivity |].
    exfalso. assert (z ∈ filter (fun x0 => f x0 = y) l) as Hz by (rewrite E; constructor).
    apply list_elem_of_filter in Hz as [Hfz Hz].
    apply Hx. rewrite Hy, <- Hfz. apply list_elem_of_fmap. eauto.
  - rewrite filter_cons_False by exact Hy. apply IH, Hl.
Qed.

Lemma outerLoop_single now pid employees pairMap k :
  (length employees <= 1)%nat -> outerLoop now pid employees pairMap k = (pairMap, k).
Proof.
  destruct employees as [|e1 [|e2 l]]; simpl; [reflexivity | reflexivity | lia].
Qed.

Lemma forEachGroup_singles now groups : forall pairMap k,
  Forall (fun g => (length g.2 <= 1)%nat) groups ->
  forEachGroup now groups pairMap k = (pairMap, k).
Proof.
  induction groups as [|[pid employees] groups IH]; intros pairMap k Hg;
    cbn [forEachGroup].
  - reflexivity.
  - apply Forall_cons in Hg as [H1 Hg].
    rewrite bind_eq, outerLoop_single by exact H1. apply IH, Hg.
Qed.

(** X7: records that are all of different projects give no pair: the pair list
    is empty, the headline says that no pair was found, and the clock is not
    read. *)
Theorem distinct_projects_no_pairs (now : nat -> Z) (data : list AssignmentRecord) (k : nat) :
  NoDup (projectId <$> data) ->
  analyzeEmployees now data k
  = (mkResult "No employee pairs found that worked together" []
       (mkSummary (Z.of_nat (length data)) (countDistinct (empId <$> data))
          (Z.of_nat (length data)) 0)
       data [],
     k).
Proof.
  intros Hnd. unfold analyzeEmployees. rewrite bind_eq, forEachGroup_singles.
  - cbn [ret fst snd]. unfold buildResult. cbn [fmap list_fmap sortPairs foldr headline length].
    do 2 f_equal. f_equal. unfold countDistinct.
    rewrite size_list_to_set by exact Hnd. rewrite length_fmap. reflexivity.
  - apply Forall_forall. intros [pid rs] Hin.
    apply groupByProject_elem_of in Hin as [-> _]. cbn [snd].
    apply filter_NoDup_key, Hnd.
Qed.

Lemma distinct_projects_no_pairs_witness :
  allPairs (analyzeEmployees (fun _ => 0) [mkRecord 1 10 0 None; mkRecord 2 11 0 None] 0%nat).1
  = [].
Proof.
  rewrite (distinct_projects_no_pairs (fun _ => 0)
             [mkRecord 1 10 0 None; mkRecord 2 11 0 None] 0%nat).
  - reflexivity.
  - cbn [fmap list_fmap projectId]. apply NoDup_cons. split.
    + intros H. apply list_elem_of_singleton in H. discriminate H.
    + apply NoDup_singleton.
Defined.

(** X8: the counts of the summary: the number of distinct projects is the number
    of groups, and neither it nor the number of distinct employees is above
    the number of records. *)
Theorem summary_counts (now : nat -> Z) (data : list AssignmentRecord) (k : nat) :
  let s := summary (analyzeEmployees now data k).1 in
  totalRecords s = Z.of_nat (length data)
  /\ uniqueProjects s = Z.of_nat (length (groupByProject data))
  /\ 0 <= uniqueEmployees s <= totalRecords s
  /\ 0 <= uniqueProjects s <= totalRecords s
  /\ (uniqueEmployees s = 0 <-> data = []).
Proof.
  cbv zeta. unfold analyzeEmployees. rewrite bind_eq.
  cbn [ret fst buildResult summary totalRecords uniqueProjects uniqueEmployees].
  assert (forall xs : list Z, 0 <= countDistinct xs <= Z.of_nat (length xs)) as Hle.
  { intros xs. unfold countDistinct. split; [lia |].
    apply inj_le. induction xs as [|x xs IH]; [reflexivity |].
    rewrite list_to_set_cons, size_union_alt, size_singleton. cbn [length].
    assert ((list_to_set xs : gset Z) ∖ {[x]} ⊆ list_to_set xs) as Hsub
      by (intros y [Hy _]%elem_of_difference; exact Hy).
    apply subseteq_size in Hsub. lia. }
  split; [reflexivity |]. split.
  - unfold countDistinct. f_equal.
    rewrite <- (length_fmap fst (groupByProject data)).
    rewrite <- (size_list_to_set (C := gset Z)) by apply groupByProject_keys_NoDup.
    f_equal. apply set_eq. intros pid. rewrite !elem_of_list_to_set.
    symmetry. apply groupByProject_keys.
  - pose proof (Hle (empId <$> data)) as H1. pose proof (Hle (projectId <$> data)) as H2.
    rewrite length_fmap in H1, H2. split; [exact H1 |]. split; [exact H2 |].
    split.
    + intros E. unfold countDistinct in E.
      destruct data as [|r data]; [reflexivity |]. exfalso.
      assert (size (list_to_set (empId <$> r :: data) : gset Z) = 0%nat) as E' by lia.
      apply size_empty_inv in E'. 
      assert (empId r ∈ (list_to_set (empId <$> r :: data) : gset Z)) as Hin
        by (apply elem_of_list_to_set; constructor).
      rewrite E' in Hin. apply elem_of_empty in Hin. exact Hin.
    + intros ->. reflexivity.
Qed.

End AnalysisFacts.


Module OverlapFacts.
Import JS JSFacts Parser Aggregator MapFacts GroupFacts AggregatorFacts PairMapFacts Notions.

Lemma ceilDiv_mono x y d : 0 < d -> x <= y -> ceilDiv x d <= ceilDiv y d.
Proof.
  intros Hd Hxy. unfold ceilDiv.
  pose proof (Z.div_le_mono (- y) (- x) d Hd ltac:(lia)). lia.
Qed.

(** X9: the overlap of two intervals with given ends: it is never negative; it is
    positive exactly when each interval starts no later than both end; it is
    never above the days, first and last counted, of either interval; and
    the clock is not read. *)
Theorem calculateOverlap_bounds (now : nat -> Z) (start1 end1 start2 end2 : Z) (k : nat) :
  let ov := calculateOverlap now start1 (Some end1) start2 (Some end2) k in
  ov.2 = k
  /\ 0 <= ov.1
  /\ (0 < ov.1 <-> start1 <= end1 /\ start1 <= end2 /\ start2 <= end1 /\ start2 <= end2)
  /\ ov.1 <= Z.max 0 (ceilDiv (end1 - start1) msPerDay + 1)
  /\ ov.1 <= Z.max 0 (ceilDiv (end2 - start2) msPerDay + 1).
Proof.
  cbv zeta. rewrite calculateOverlap_eq. cbv zeta. cbn [orNow ret fst snd].
  assert (0 < msPerDay) as Hd by reflexivity.
  destruct (Z.leb_spec (Z.max start1 start2) (Z.min end1 end2)) as [H|H].
  - pose proof (ceilDiv_nonneg (Z.min end1 end2 - Z.max start1 start2) msPerDay Hd
                  ltac:(lia)).
    pose proof (ceilDiv_mono (Z.min end1 end2 - Z.max start1 start2) (end1 - start1)
                  msPerDay Hd ltac:(lia)).
    pose proof (ceilDiv_mono (Z.min end1 end2 - Z.max start1 start2) (end2 - start2)
                  msPerDay Hd ltac:(lia)).
    repeat split; lia.
  - repeat split; lia.
Qed.

Section MonotoneClock.

Variable now : nat -> Z.
Hypothesis now_mono : forall i j, (i <= j)%nat -> now i <= now j.

Lemma orNow_mono e k k' : (k <= k')%nat -> (orNow now e k).1 <= (orNow now e k').1.
Proof. intros H. destruct e; simpl; [lia | apply now_mono, H]. Qed.

Lemma orNow_count e k : (k <= (orNow now e k).2)%nat.
Proof. destruct e; simpl; lia. Qed.

Lemma pairStep_fits pid e1 e2 pairMap k :
  Forall (fun kv => Forall detailFits (commonProjects kv.2)) pairMap ->
  Forall (fun kv => Forall detailFits (commonProjects kv.2))
    (pairStep now pid e1 e2 pairMap k).1.
Proof.
  intros Hm. rewrite pairStep_eq. cbv zeta. rewrite calculateOverlap_eq. cbv zeta.
  cbn [fst snd].
  set (r1 := orNow now (dateTo e1) k).
  set (r2 := orNow now (dateTo e2) r1.2).
  set (t1 := orNow now (dateTo e1) r2.2).
  set (t2 := orNow now (dateTo e2) t1.2).
  set (s := Z.max (dateFrom e1) (dateFrom e2)).
  assert (k <= r1.2)%nat as C1 by apply orNow_count.
  assert (r1.2 <= r2.2)%nat as C2 by apply orNow_count.
  assert (r2.2 <= t1.2)%nat as C3 by apply orNow_count.
  assert (r1.1 <= t1.1) as H1 by (apply orNow_mono; lia).
  assert (r2.1 <= t2.1) as H2 by (apply orNow_mono; lia).
  destruct (Z.leb_spec s (Z.min r1.1 r2.1)) as [Hs|Hs]; [| exact Hm].
  destruct (0 <? _); [| exact Hm].
  apply Forall_update_kv.
  - intros p Hp. cbn [snd pushDetail commonProjects] in *.
    apply Forall_app. split; [exact Hp |]. repeat constructor;
      cbn [d_dateFrom d_dateTo overlapDays]; [lia |].
    pose proof (ceilDiv_mono (Z.min r1.1 r2.1 - s) (Z.min t1.1 t2.1 - s) msPerDay
                  ltac:(reflexivity) ltac:(lia)).
    lia.
  - apply Forall_update_kv; [intros p Hp; exact Hp |].
    destruct (has _ _); [exact Hm |].
    apply Forall_set_kv; [constructor | exact Hm].
Qed.

Lemma innerLoop_fits pid e1 later : forall pairMap k,
  Forall (fun kv => Forall detailFits (commonProjects kv.2)) pairMap ->
  Forall (fun kv => Forall detailFits (commonProjects kv.2))
    (innerLoop now pid e1 later pairMap k).1.
Proof.
  induction later as [|e2 later IH]; intros pairMap k Hm; cbn [innerLoop].
  - exact Hm.
  - rewrite bind_eq. apply IH, pairStep_fits, Hm.
Qed.

Lemma outerLoop_fits pid employees : forall pairMap k,
  Forall (fun kv => Forall detailFits (commonProjects kv.2)) pairMap ->
  Forall (fun kv => Forall detailFits (commonProjects kv.2))
    (outerLoop now pid employees pairMap k).1.
Proof.
  induction employees as [|e1 later IH]; intros pairMap k Hm; cbn [outerLoop].
  - exact Hm.
  - rewrite bind_eq. apply IH, innerLoop_fits, Hm.
Qed.

Lemma forEachGroup_fits groups : forall pairMap k,
  Forall (fun kv => Forall detailFits (commonProjects kv.2)) pairMap ->
  Forall (fun kv => Forall detailFits (commonProjects kv.2))
    (forEachGroup now groups pairMap k).1.
Proof.
  induction groups as [|[pid employees] groups IH]; intros pairMap k Hm;
    cbn [forEachGroup].
  - exact Hm.
  - rewrite bind_eq. apply IH, outerLoop_fits, Hm.
Qed.

End MonotoneClock.

(** X10: under a clock that never goes back, the interval of every detail starts
    no later than it ends, and the days of the detail are not above the days
    of that interval, first and last counted. *)
Theorem details_fit_under_monotone_clock (now : nat -> Z)
    (data : list AssignmentRecord) (k : nat) :
  (forall i j, (i <= j)%nat -> now i <= now j) ->
  Forall (fun p =>
            Forall (fun d =>
                      d_dateFrom d <= d_dateTo d
                      /\ overlapDays d
                         <= ceilDiv (d_dateTo d - d_dateFrom d) msPerDay + 1)
              (commonProjects p))
    (allPairs (analyzeEmployees now data k).1).
Proof.
  intros Hmono. rewrite allPairs_analyze, sortPairs_Permutation. apply Forall_fmap.
  apply (forEachGroup_fits now Hmono). constructor.
Qed.

Lemma details_fit_under_monotone_clock_witness :
  Forall (fun p =>
            Forall (fun d =>
                      d_dateFrom d <= d_dateTo d
                      /\ overlapDays d
                         <= ceilDiv (d_dateTo d - d_dateFrom d) msPerDay + 1)
              (commonProjects p))
    (allPairs (analyzeEmployees tickingClock twoOpenRecords 0%nat).1).
Proof.
  apply details_fit_under_monotone_clock.
  intros i j H. unfold tickingClock. lia.
Defined.

End OverlapFacts.


Module CalendarFacts.
Import JS JSFacts DateFacts Notions.

Lemma DayFromYear_mono y y' : y <= y' -> DayFromYear y <= DayFromYear y'.
Proof.
  intros H. unfold DayFromYear. Z.div_mod_to_equations. lia.
Qed.

(** The year of a day is the one year whose days hold it. *)
Lemma YearFromDay_unique d y :
  DayFromYear y <= d < DayFromYear (y + 1) -> YearFromDay d = y.
Proof.
  intros H. pose proof (YearFromDay_spec d) as S.
  destruct (Z.lt_trichotomy (YearFromDay d) y) as [Hlt | [Heq | Hgt]]; [| exact Heq |].
  - pose proof (DayFromYear_mono (YearFromDay d + 1) y ltac:(lia)). lia.
  - pose proof (DayFromYear_mono (y + 1) (YearFromDay d) ltac:(lia)). lia.
Qed.

Lemma Day_of_days d : Day (d * msPerDay) = d.
Proof. unfold Day. apply Z.div_mul. discriminate. Qed.

Lemma DaysInYear_leap y : DaysInYear y = 365 + InLeapYear y.
Proof. unfold InLeapYear. lia. Qed.

Lemma daysBeforeMonth_month leap m :
  0 <= leap <= 1 -> 0 <= m <= 11 -> 0 <= daysBeforeMonth leap m <= 334 + leap.
Proof.
  intros Hl Hm. unfold daysBeforeMonth.
  repeat match goal with |- context [match ?x with _ => _ end] => destruct x end; lia.
Qed.

(** A month of the year and a day from 1 to 31 stay in the year, also when
    the day is past the end of the month. *)
Lemma MakeDay_in_year y m d :
  0 <= m <= 11 -> 1 <= d <= 31 ->
  DayFromYear y <= MakeDay y m d < DayFromYear (y + 1).
Proof.
  intros Hm Hd. unfold MakeDay.
  rewrite (Z.div_small m 12), (Z.mod_small m 12), Z.add_0_r by lia.
  rewrite DayFromYear_succ, DaysInYear_leap.
  pose proof (daysBeforeMonth_month (InLeapYear y) m (InLeapYear_range y) Hm). lia.
Qed.

(** A month index past December and a day from 1 on lie in a later year. *)
Lemma MakeDay_later_year y m d :
  12 <= m -> 1 <= d -> DayFromYear (y + 1) <= MakeDay y m d.
Proof.
  intros Hm Hd. unfold MakeDay.
  pose proof (daysBeforeMonth_range (InLeapYear (y + m / 12)) (m mod 12)
                (InLeapYear_range _)).
  assert (1 <= m / 12) by (Z.div_mod_to_equations; lia).
  pose proof (DayFromYear_mono (y + 1) (y + m / 12) ltac:(lia)). lia.
Qed.

Lemma YearFromTime_in_year y m d :
  0 <= m <= 11 -> 1 <= d <= 31 -> YearFromTime (MakeDay y m d * msPerDay) = y.
Proof.
  intros Hm Hd. unfold YearFromTime. rewrite Day_of_days.
  apply YearFromDay_unique, MakeDay_in_year; assumption.
Qed.

Lemma YearFromTime_later_year y m d :
  12 <= m -> 1 <= d -> YearFromTime (MakeDay y m d * msPerDay) <> y.
Proof.
  intros Hm Hd. unfold YearFromTime. rewrite Day_of_days. intros E.
  pose proof (YearFromDay_spec (MakeDay y m d)) as [_ S]. rewrite E in S.
  pose proof (MakeDay_later_year y m d Hm Hd) as L.
  revert S L. generalize (DayFromYear (y + 1)) (MakeDay y m d). intros u v S L. lia.
Qed.

End CalendarFacts.

Module TokenFacts.
Import JS JSFacts Normalizer.

Lemma forallb_impl (p q : ascii -> bool) s :
  (forall c, p c = true -> q c = true) -> forallb p s = true -> forallb q s = true.
Proof.
  intros Hpq. induction s as [|c r IH]; simpl; [reflexivity |].
  intros [Hc Hr]%andb_true_iff. rewrite (Hpq _ Hc), (IH Hr). reflexivity.
Qed.

Lemma forallb_append p s1 s2 :
  forallb p (s1 +:+ s2) = forallb p s1 && forallb p s2.
Proof.
  induction s1 as [|c r IH]; [reflexivity |].
  change (forallb p (String c (r +:+ s2)) = forallb p (String c r) && forallb p s2).
  cbn [forallb]. rewrite IH, andb_assoc. reflexivity.
Qed.

(** A text with no white space is its own trim. *)
Lemma trimStart_nowhite s :
  forallb (fun c => negb (isWhite c)) s = true -> trimStart s = s.
Proof.
  destruct s as [|c r]; simpl; [reflexivity |].
  intros [Hc _]%andb_true_iff. apply negb_true_iff in Hc. rewrite Hc. reflexivity.
Qed.

Lemma trimEnd_nowhite s :
  forallb (fun c => negb (isWhite c)) s = true -> trimEnd s = s.
Proof.
  induction s as [|c r IH]; simpl; [reflexivity |].
  intros [Hc Hr]%andb_true_iff. apply negb_true_iff in Hc.
  rewrite (IH Hr), Hc. destruct r; reflexivity.
Qed.

Lemma trim_nowhite s :
  forallb (fun c => negb (isWhite c)) s = true -> trim s = s.
Proof.
  intros H. unfold trim. rewrite trimStart_nowhite, trimEnd_nowhite; auto.
Qed.

Lemma toLowerCase_noupper s :
  forallb (fun c => negb (isUpper c)) s = true ->
  toLowerCase s = s.
Proof.
  induction s as [|c r IH]; simpl; [reflexivity |].
  intros [Hc Hr]%andb_true_iff. apply negb_true_iff in Hc.
  unfold lowerChar. rewrite Hc, (IH Hr). reflexivity.
Qed.

(** *** Splitting *)

Lemma split_nonempty sep s : split sep s <> [].
Proof.
  destruct s as [|c r]; simpl; [discriminate |].
  destruct (Ascii.eqb c sep); [discriminate |].
  destruct (split sep r); discriminate.
Qed.

(** A text without the separator is one piece. *)
Lemma split_no_sep sep s :
  forallb (fun c => negb (Ascii.eqb c sep)) s = true -> split sep s = [s].
Proof.
  induction s as [|c r IH]; simpl; [reflexivity |].
  intros [Hc Hr]%andb_true_iff. apply negb_true_iff in Hc.
  rewrite Hc, (IH Hr). reflexivity.
Qed.

(** A piece without the separator, the separator, and the rest. *)
Lemma split_piece sep p r :
  forallb (fun c => negb (Ascii.eqb c sep)) p = true ->
  split sep (p +:+ String sep r) = p :: split sep r.
Proof.
  induction p as [|c p IH]; intros H.
  - change (split sep (String sep r) = EmptyString :: split sep r).
    cbn [split]. rewrite Ascii.eqb_refl. reflexivity.
  - change (split sep (String c (p +:+ String sep r)) = String c p :: split sep r).
    simpl in H. apply andb_true_iff in H as [Hc Hp]. apply negb_true_iff in Hc.
    cbn [split]. rewrite Hc, (IH Hp). reflexivity.
Qed.

End TokenFacts.


Module BlockFacts.
Import JS JSFacts DateFacts Normalizer CalendarFacts TokenFacts Notions.

Lemma digits_1_2_parse p :
  digits_1_2 p = true -> exists n, parseInt p = Some n /\ 0 <= n < 100.
Proof.
  unfold digits_1_2. intros [[Hd H1]%andb_true_iff H2]%andb_true_iff.
  apply Nat.leb_le in H1, H2.
  destruct (parseInt_digits p Hd) as (n & E & B).
  - intros ->. simpl in H1. lia.
  - exists n. split; [exact E |].
    assert (10 ^ Z.of_nat (String.length p) <= 10 ^ 2)
      by (apply Z.pow_le_mono_r; lia).
    lia.
Qed.

Lemma digits_4_parse p :
  digits_n 4 p = true -> exists n, parseInt p = Some n /\ 0 <= n < 10000.
Proof.
  unfold digits_n. intros [Hd H1]%andb_true_iff. apply Nat.eqb_eq in H1.
  destruct (parseInt_digits p Hd) as (n & E & B).
  - intros ->. simpl in H1. lia.
  - exists n. split; [exact E |]. rewrite H1 in B. exact B.
Qed.

(** The fields of a text that matches the pattern of day, month and year. *)
Lemma re_dmy_fields sep c :
  re_dmy sep c = true ->
  exists p0 p1 p2 a b y,
    split sep c = [p0; p1; p2] /\ digits_n 4 p2 = true /\
    parseInt p0 = Some a /\ 0 <= a < 100 /\
    parseInt p1 = Some b /\ 0 <= b < 100 /\
    parseInt p2 = Some y /\ 0 <= y < 10000.
Proof.
  unfold re_dmy. destruct (split sep c) as [|p0 [|p1 [|p2 [|p3 l]]]]; try discriminate.
  intros [[H0 H1]%andb_true_iff H2]%andb_true_iff.
  destruct (digits_1_2_parse p0 H0) as (a & Ea & Ba).
  destruct (digits_1_2_parse p1 H1) as (b & Eb & Bb).
  destruct (digits_4_parse p2 H2) as (y & Ey & By).
  exists p0, p1, p2, a, b, y. auto 10.
Qed.

Lemma tryYYYYMMDD_Some c : re_digits8 c = true -> is_Some (tryYYYYMMDD c).
Proof.
  intros H. unfold tryYYYYMMDD. rewrite H.
  unfold re_digits8 in H. apply andb_true_iff in H as [Hlen Hdig].
  apply Nat.eqb_eq in Hlen.
  assert (forall n k, (n + k <= 8)%nat -> k <> 0%nat ->
            exists v, parseInt (String.substring n k c) = Some v
                      /\ 0 <= v < 10 ^ Z.of_nat k) as Hfield.
  { intros n k Hnk Hk.
    pose proof (length_substring n k c ltac:(lia)) as Hl.
    destruct (parseInt_digits (String.substring n k c)) as (v & E & B).
    - apply forallb_substring, Hdig.
    - intros E. rewrite E in Hl. simpl in Hl. lia.
    - rewrite Hl in B. eauto. }
  destruct (Hfield 0%nat 4%nat) as (y & -> & By); [lia | lia |].
  destruct (Hfield 4%nat 2%nat) as (m & Em & Bm); [lia | lia |].
  destruct (Hfield 6%nat 2%nat) as (d & -> & Bd); [lia | lia |].
  change (10 ^ Z.of_nat 4) with 10000 in By.
  change (10 ^ Z.of_nat 2) with 100 in Bm, Bd.
  unfold monthIndex. rewrite Em. cbn [fmap option_fmap option_map].
  rewrite (newDateYMD_valid y (Z.pred m) d) by lia. eauto.
Qed.

Lemma newDateYMD_fields y m d :
  0 <= y < 10000 -> 0 <= m < 100 -> 0 <= d < 100 ->
  newDateYMD (Some y) (Z.pred <$> Some m) (Some d) = Some (dateOf y m d).
Proof.
  intros Hy Hm Hd. cbn [fmap option_fmap option_map].
  rewrite (newDateYMD_valid y (Z.pred m) d) by lia. reflexivity.
Qed.

(** The slash block on a text that matches its pattern: the day-first date
    when it lies in the year written, the month-first date otherwise. *)
Lemma trySlash_eq c :
  re_dmy "/" c = true ->
  exists p0 p1 p2 a b y,
    split "/" c = [p0; p1; p2] /\
    parseInt p0 = Some a /\ 0 <= a < 100 /\
    parseInt p1 = Some b /\ 0 <= b < 100 /\
    parseInt p2 = Some y /\ 0 <= y < 10000 /\
    trySlash c
    = Some (if bool_decide (YearFromTime (dateOf y b a) = y)
            then dateOf y b a else dateOf y a b).
Proof.
  intros H. destruct (re_dmy_fields _ _ H) as (p0 & p1 & p2 & a & b & y & Es & _
                                               & Ea & Ba & Eb & Bb & Ey & By).
  exists p0, p1, p2, a, b, y. repeat (split; [assumption |]).
  unfold trySlash, monthIndex. rewrite H, Es, Ea, Eb, Ey.
  rewrite !newDateYMD_fields by assumption.
  destruct (decide (YearFromTime (dateOf y b a) = y)) as [Hy|Hy].
  - rewrite !bool_decide_eq_true_2; congruence.
  - rewrite !bool_decide_eq_false_2; congruence.
Qed.

Lemma tryDot_eq c :
  re_dmy "." c = true ->
  exists p0 p1 p2 a b y,
    split "." c = [p0; p1; p2] /\
    parseInt p0 = Some a /\ 0 <= a < 100 /\
    parseInt p1 = Some b /\ 0 <= b < 100 /\
    parseInt p2 = Some y /\ 0 <= y < 10000 /\
    tryDot c = Some (dateOf y b a).
Proof.
  intros H. destruct (re_dmy_fields _ _ H) as (p0 & p1 & p2 & a & b & y & Es & _
                                               & Ea & Ba & Eb & Bb & Ey & By).
  exists p0, p1, p2, a, b, y. repeat (split; [assumption |]).
  unfold tryDot, monthIndex. rewrite H, Es, Ea, Eb, Ey.
  apply newDateYMD_fields; assumption.
Qed.

Lemma tryDash_eq c :
  re_dmy "-" c = true ->
  exists p0 p1 p2 a b y,
    split "-" c = [p0; p1; p2] /\
    parseInt p0 = Some a /\ 0 <= a < 100 /\
    parseInt p1 = Some b /\ 0 <= b < 100 /\
    parseInt p2 = Some y /\ 0 <= y < 10000 /\
    tryDash c = Some (dateOf y b a).
Proof.
  intros H. destruct (re_dmy_fields _ _ H) as (p0 & p1 & p2 & a & b & y & Es & H4
                                               & Ea & Ba & Eb & Bb & Ey & By).
  exists p0, p1, p2, a, b, y. repeat (split; [assumption |]).
  unfold tryDash, monthIndex. rewrite H, Es, Ea, Eb, Ey.
  unfold digits_n in H4. apply andb_true_iff in H4 as [_ ->].
  apply newDateYMD_fields; assumption.
Qed.

Section WithHostParser.

Variable Date_parse : string -> option Z.

(** X11: the answer is null in two cases only: the text is a null marker (empty,
    blank, or the word null in any case), or the host parser rejects it and
    its trimmed form matches none of the four patterns.  A text that matches
    a pattern is always given a date. *)
Theorem parseFlexibleDate_null_iff (s : string) :
  parseFlexibleDate Date_parse (Some s) = None
  <-> (String.eqb s EmptyString
       || String.eqb (toLowerCase s) "null"
       || String.eqb (trim s) EmptyString = true)
      \/ (Date_parse s = None
          /\ re_digits8 (trim s) = false
          /\ re_dmy "/" (trim s) = false
          /\ re_dmy "." (trim s) = false
          /\ re_dmy "-" (trim s) = false).
Proof.
  unfold parseFlexibleDate.
  destruct (String.eqb s EmptyString
            || String.eqb (toLowerCase s) "null"
            || String.eqb (trim s) EmptyString); [split; auto |].
  destruct (Date_parse s) as [t|].
  { split; [discriminate | intros [[=] | [[=] _]]]. }
  set (c := trim s).
  destruct (re_digits8 c) eqn:E8.
  { destruct (tryYYYYMMDD_Some c E8) as [t ->]. cbn [orElse].
    split; [discriminate | intros [[=] | (_ & [=] & _)]]. }
  assert (tryYYYYMMDD c = None) as -> by (unfold tryYYYYMMDD; rewrite E8; reflexivity).
  cbn [orElse].
  destruct (re_dmy "/" c) eqn:Es.
  { destruct (trySlash_eq c Es) as (? & ? & ? & ? & ? & ? & _ & _ & _ & _ & _ & _ & _ & ->).
    cbn [orElse]. split; [discriminate | intros [[=] | (_ & _ & [=] & _)]]. }
  assert (trySlash c = None) as -> by (unfold trySlash; rewrite Es; reflexivity).
  cbn [orElse].
  destruct (re_dmy "." c) eqn:Ed.
  { destruct (tryDot_eq c Ed) as (? & ? & ? & ? & ? & ? & _ & _ & _ & _ & _ & _ & _ & ->).
    cbn [orElse]. split; [discriminate | intros [[=] | (_ & _ & _ & [=] & _)]]. }
  assert (tryDot c = None) as -> by (unfold tryDot; rewrite Ed; reflexivity).
  cbn [orElse].
  destruct (re_dmy "-" c) eqn:Eh.
  { destruct (tryDash_eq c Eh) as (? & ? & ? & ? & ? & ? & _ & _ & _ & _ & _ & _ & _ & ->).
    split; [discriminate | intros [[=] | (_ & _ & _ & _ & [=])]]. }
  assert (tryDash c = None) as -> by (unfold tryDash; rewrite Eh; reflexivity).
  split; [intros _; right; repeat split | reflexivity].
Qed.

End WithHostParser.

End BlockFacts.


Module HeuristicFacts.
Import JS JSFacts DateFacts Normalizer CalendarFacts TokenFacts BlockFacts Notions.

Section Token.

Variables (sep : ascii) (p0 p1 p2 : string).
Hypothesis Hsep : plainSep sep = true.
Hypothesis H0 : digits_1_2 p0 = true.
Hypothesis H1 : digits_1_2 p1 = true.
Hypothesis H2 : digits_n 4 p2 = true.

Let tok := dmyToken sep p0 p1 p2.

Lemma digits_of_pieces :
  forallb isDigit p0 = true /\ forallb isDigit p1 = true /\ forallb isDigit p2 = true.
Proof.
  unfold digits_1_2, digits_n in *.
  apply andb_true_iff in H0 as [[? _]%andb_true_iff _].
  apply andb_true_iff in H1 as [[? _]%andb_true_iff _].
  apply andb_true_iff in H2 as [? _]. auto.
Qed.

Lemma sep_facts :
  isDigit sep = false /\ isWhite sep = false /\ isUpper sep = false.
Proof.
  unfold plainSep in Hsep.
  apply andb_true_iff in Hsep as [[Ha Hb]%andb_true_iff Hc].
  rewrite !negb_true_iff in *. auto.
Qed.

Lemma digit_not_sep c : isDigit c = true -> negb (Ascii.eqb c sep) = true.
Proof.
  intros Hc. apply negb_true_iff, Ascii.eqb_neq. intros ->.
  destruct sep_facts as [E _]. congruence.
Qed.

Lemma token_chars (q : ascii -> bool) :
  (forall c, isDigit c = true -> q c = true) -> q sep = true ->
  forallb q tok = true.
Proof.
  intros Hq Hs. destruct digits_of_pieces as (D0 & D1 & D2).
  subst tok. unfold dmyToken.
  rewrite forallb_append. cbn [forallb]. rewrite forallb_append. cbn [forallb].
  rewrite !(forallb_impl isDigit q) by assumption. rewrite Hs. reflexivity.
Qed.

Lemma token_split : split sep tok = [p0; p1; p2].
Proof.
  destruct digits_of_pieces as (D0 & D1 & D2).
  subst tok. unfold dmyToken.
  rewrite !split_piece by (eapply forallb_impl; [apply digit_not_sep | assumption]).
  rewrite split_no_sep by (eapply forallb_impl; [apply digit_not_sep | assumption]).
  reflexivity.
Qed.

Lemma token_matches : re_dmy sep tok = true.
Proof.
  unfold re_dmy. rewrite token_split, H0, H1, H2. reflexivity.
Qed.

(** With another separator the text is one piece and matches nothing. *)
Lemma token_other_sep sep' :
  isDigit sep' = false -> sep' <> sep -> re_dmy sep' tok = false.
Proof.
  intros Hd Hne. unfold re_dmy. rewrite split_no_sep; [reflexivity |].
  apply token_chars.
  - intros c Hc. apply negb_true_iff, Ascii.eqb_neq. intros ->. congruence.
  - apply negb_true_iff, Ascii.eqb_neq. congruence.
Qed.

Lemma token_not_digits8 : re_digits8 tok = false.
Proof.
  unfold re_digits8. apply andb_false_iff. right.
  destruct (forallb isDigit tok) eqn:E; [| reflexivity]. exfalso.
  pose proof (split_no_sep sep tok
                (forallb_impl _ _ _ digit_not_sep E)) as Hs.
  rewrite token_split in Hs. discriminate.
Qed.

Lemma token_trim : trim tok = tok.
Proof.
  apply trim_nowhite, token_chars.
  - intros c Hc. rewrite (isDigit_not_white c Hc). reflexivity.
  - destruct sep_facts as (_ & -> & _). reflexivity.
Qed.

Lemma token_lower : toLowerCase tok = tok.
Proof.
  apply toLowerCase_noupper, token_chars.
  - intros c Hc. rewrite (isDigit_not_upper c Hc). reflexivity.
  - destruct sep_facts as (_ & _ & ->). reflexivity.
Qed.

(** The text starts with a digit: it is not empty and not the word null. *)
Lemma token_not_marker :
  String.eqb tok EmptyString = false /\ String.eqb tok "null" = false.
Proof.
  unfold digits_1_2 in H0.
  apply andb_true_iff in H0 as [[Hd Hl]%andb_true_iff _]. apply Nat.leb_le in Hl.
  subst tok. unfold dmyToken. destruct p0 as [|c r]; [simpl in Hl; lia |].
  simpl in Hd. apply andb_true_iff in Hd as [Hc _]. apply isDigit_code in Hc.
  split; apply String.eqb_neq; [discriminate |].
  change ((String c r +:+ String sep (p1 +:+ String sep p2)))
    with (String c (r +:+ String sep (p1 +:+ String sep p2))).
  intros [= -> _]. vm_compute in Hc. destruct Hc as [_ Hc]. apply Hc. reflexivity.
Qed.

Section WithHostParser.

Variable Date_parse : string -> option Z.
Hypothesis Hhost : Date_parse tok = None.

(** What is left of [parseFlexibleDate] on such a text. *)
Lemma parseFlexibleDate_token :
  parseFlexibleDate Date_parse (Some tok)
  = orElse (trySlash tok) (orElse (tryDot tok) (tryDash tok)).
Proof.
  unfold parseFlexibleDate.
  rewrite token_lower, token_trim, Hhost.
  destruct token_not_marker as [-> ->]. cbn [orb].
  unfold tryYYYYMMDD. rewrite token_not_digits8. reflexivity.
Qed.

End WithHostParser.

End Token.

End HeuristicFacts.


Module HeuristicTheorems.
Import JS JSFacts DateFacts Normalizer CalendarFacts TokenFacts BlockFacts HeuristicFacts Notions.

Section WithHostParser.

Variable Date_parse : string -> option Z.

(** The slash block on the text of three fields. *)
Lemma slash_token p0 p1 p2 a b y :
  digits_1_2 p0 = true -> digits_1_2 p1 = true -> digits_n 4 p2 = true ->
  parseInt p0 = Some a -> parseInt p1 = Some b -> parseInt p2 = Some y ->
  Date_parse (dmyToken "/" p0 p1 p2) = None ->
  0 <= a < 100 /\ 0 <= b < 100 /\ 0 <= y < 10000
  /\ parseFlexibleDate Date_parse (Some (dmyToken "/" p0 p1 p2))
     = Some (if bool_decide (YearFromTime (dateOf y b a) = y)
             then dateOf y b a else dateOf y a b).
Proof.
  intros H0 H1 H2 Ea Eb Ey Hhost.
  rewrite (parseFlexibleDate_token "/" p0 p1 p2) by (assumption || reflexivity).
  pose proof (token_matches "/" p0 p1 p2 ltac:(reflexivity) H0 H1 H2) as Hm.
  destruct (trySlash_eq _ Hm) as (q0 & q1 & q2 & a' & b' & y' & Es & Ea' & Ba & Eb' & Bb
                                  & Ey' & By & ->).
  rewrite (token_split "/" p0 p1 p2) in Es by (assumption || reflexivity).
  injection Es as <- <- <-.
  assert (a' = a) as -> by congruence. assert (b' = b) as -> by congruence.
  assert (y' = y) as -> by congruence.
  auto.
Qed.

(** X12: a text d/m/yyyy that the host parser rejects, with a year from 100 on, a
    second field from 1 to 12 and a first field from 1 to 31, is read day
    first: the date is day [d] of month [m], carried into the next month when
    the month is shorter, and the month-first reading is not tried. *)
Theorem slash_day_first (p0 p1 p2 : string) (d m y : Z) :
  digits_1_2 p0 = true -> digits_1_2 p1 = true -> digits_n 4 p2 = true ->
  parseInt p0 = Some d -> parseInt p1 = Some m -> parseInt p2 = Some y ->
  Date_parse (dmyToken "/" p0 p1 p2) = None ->
  100 <= y -> 1 <= m <= 12 -> 1 <= d <= 31 ->
  parseFlexibleDate Date_parse (Some (dmyToken "/" p0 p1 p2))
  = Some (MakeDay y (m - 1) d * msPerDay)
  /\ YearFromTime (MakeDay y (m - 1) d * msPerDay) = y.
Proof.
  intros H0 H1 H2 Ed Em Ey Hhost Hy Hm Hd.
  destruct (slash_token p0 p1 p2 d m y) as (_ & _ & _ & ->); try assumption.
  assert (dateOf y m d = MakeDay y (m - 1) d * msPerDay) as E.
  { unfold dateOf. destruct (Z.leb_spec y 99); [lia |]. rewrite andb_false_r. reflexivity. }
  rewrite E.
  pose proof (YearFromTime_in_year y (m - 1) d ltac:(lia) Hd) as Hyear.
  rewrite bool_decide_eq_true_2 by exact Hyear. auto.
Qed.

(** X13: a text a/b/yyyy that the host parser rejects, with a year from 100 on, a
    second field above 12 and a first field from 1 on, is read month first:
    the day-first date would lie in a later year, so the guard refuses it,
    and the date is day [b] of month [a]. *)
Theorem slash_month_first (p0 p1 p2 : string) (a b y : Z) :
  digits_1_2 p0 = true -> digits_1_2 p1 = true -> digits_n 4 p2 = true ->
  parseInt p0 = Some a -> parseInt p1 = Some b -> parseInt p2 = Some y ->
  Date_parse (dmyToken "/" p0 p1 p2) = None ->
  100 <= y -> 13 <= b -> 1 <= a ->
  parseFlexibleDate Date_parse (Some (dmyToken "/" p0 p1 p2))
  = Some (MakeDay y (a - 1) b * msPerDay).
Proof.
  intros H0 H1 H2 Ea Eb Ey Hhost Hy Hb Ha.
  destruct (slash_token p0 p1 p2 a b y) as (_ & _ & _ & ->); try assumption.
  assert (forall u v, dateOf y u v = MakeDay y (u - 1) v * msPerDay) as E.
  { intros u v. unfold dateOf. destruct (Z.leb_spec y 99); [lia |].
    rewrite andb_false_r. reflexivity. }
  rewrite !E.
  rewrite bool_decide_eq_false_2; [reflexivity |].
  apply YearFromTime_later_year; lia.
Qed.

(** X14: a text d.m.yyyy or d-m-yyyy that the host parser rejects is read as day,
    month and year with no check of the ranges: a month above 12 or a day
    beyond the month is carried over, and a year below 100 is taken in the
    twentieth century. *)
Theorem dot_dash_day_month_year (sep : ascii) (p0 p1 p2 : string) (d m y : Z) :
  sep = "."%char \/ sep = "-"%char ->
  digits_1_2 p0 = true -> digits_1_2 p1 = true -> digits_n 4 p2 = true ->
  parseInt p0 = Some d -> parseInt p1 = Some m -> parseInt p2 = Some y ->
  Date_parse (dmyToken sep p0 p1 p2) = None ->
  parseFlexibleDate Date_parse (Some (dmyToken sep p0 p1 p2))
  = Some (MakeDay (if (0 <=? y) && (y <=? 99) then 1900 + y else y) (m - 1) d * msPerDay).
Proof.
  intros Hsep H0 H1 H2 Ed Em Ey Hhost.
  assert (plainSep sep = true) as Hp by (destruct Hsep as [-> | ->]; reflexivity).
  rewrite (parseFlexibleDate_token sep p0 p1 p2) by assumption.
  pose proof (token_matches sep p0 p1 p2 Hp H0 H1 H2) as Hm.
  pose proof (token_split sep p0 p1 p2 Hp H0 H1 H2) as Hs.
  assert (trySlash (dmyToken sep p0 p1 p2) = None) as ->.
  { unfold trySlash. rewrite (token_other_sep sep p0 p1 p2) by
      (assumption || reflexivity || (destruct Hsep as [-> | ->]; discriminate)).
    reflexivity. }
  cbn [orElse].
  destruct Hsep as [-> | ->].
  - destruct (tryDot_eq _ Hm) as (q0 & q1 & q2 & a' & b' & y' & Es & Ea' & Ba & Eb' & Bb
                                  & Ey' & By & ->).
    rewrite Hs in Es. injection Es as <- <- <-.
    assert (a' = d) as -> by congruence. assert (b' = m) as -> by congruence.
    assert (y' = y) as -> by congruence. reflexivity.
  - assert (tryDot (dmyToken "-" p0 p1 p2) = None) as ->.
    { unfold tryDot. rewrite (token_other_sep "-" p0 p1 p2) by
        (assumption || reflexivity || discriminate).
      reflexivity. }
    cbn [orElse].
    destruct (tryDash_eq _ Hm) as (q0 & q1 & q2 & a' & b' & y' & Es & Ea' & Ba & Eb' & Bb
                                   & Ey' & By & ->).
    rewrite Hs in Es. injection Es as <- <- <-.
    assert (a' = d) as -> by congruence. assert (b' = m) as -> by congruence.
    assert (y' = y) as -> by congruence. reflexivity.
Qed.

End WithHostParser.

Lemma slash_day_first_witness :
  parseFlexibleDate Date_parse_iso (Some "30/02/2021") = Some 1614643200000
  /\ (YearFromTime 1614643200000, MonthFromTime 1614643200000,
      DateFromTime 1614643200000) = (2021, 2, 2).
Proof.
  destruct (slash_day_first Date_parse_iso "30" "02" "2021" 30 2 2021) as [E _];
    try reflexivity; try lia.
  split; [exact E | vm_compute; reflexivity].
Defined.

Lemma slash_month_first_witness :
  parseFlexibleDate Date_parse_iso (Some "2/40/2020") = Some 1583884800000
  /\ (YearFromTime 1583884800000, MonthFromTime 1583884800000,
      DateFromTime 1583884800000) = (2020, 2, 11).
Proof.
  split; [| vm_compute; reflexivity].
  apply (slash_month_first Date_parse_iso "2" "40" "2020" 2 40 2020);
    try reflexivity; lia.
Defined.

Lemma dot_dash_day_month_year_witness :
  parseFlexibleDate Date_parse_iso (Some "31.12.2020") = Some 1609372800000
  /\ parseFlexibleDate Date_parse_iso (Some "5-13-2020") = Some 1609804800000.
Proof.
  split.
  - apply (dot_dash_day_month_year Date_parse_iso "." "31" "12" "2020" 31 12 2020);
      try reflexivity; auto.
  - apply (dot_dash_day_month_year Date_parse_iso "-" "5" "13" "2020" 5 13 2020);
      try reflexivity; auto.
Defined.

End HeuristicTheorems.


Module BatchFacts.
Import JS Normalizer Parser ParserFacts Notions.

Section WithHostParser.

Variable Date_parse : string -> option Z.

Lemma processRow_record index row records errors :
  (processRow Date_parse index row (records, errors)).1
  = records ++ option_list ((recordOfRow Date_parse) row).
Proof.
  unfold processRow, recordOfRow.
  destruct (parseIntValue (empIdText row)), (parseIntValue (projectIdText row));
    try destruct (parseFlexibleDate Date_parse (dateFromStr row));
    cbn [fst option_list]; rewrite ?app_nil_r; reflexivity.
Qed.

Lemma forEachRow_records index data : forall st,
  (forEachRow Date_parse index data st).1 = st.1 ++ omap (recordOfRow Date_parse) data.
Proof.
  revert index. induction data as [|row data IH]; intros index [records errors];
    cbn [forEachRow].
  - cbn [fst]. rewrite app_nil_r. reflexivity.
  - rewrite IH, processRow_record. cbn [fst]. rewrite <- app_assoc. f_equal.
    destruct ((recordOfRow Date_parse) row) as [r|] eqn:Er; simpl; rewrite Er; reflexivity.
Qed.

(** X15: the records of a table are the records of its accepted rows, in the
    order of the rows: a row is accepted or rejected by what it holds alone,
    so that the records of two tables put end to end are the records of the
    first followed by those of the second. *)
Theorem parseCSVData_rows (data more : list Row) :
  parseCSVData Date_parse data = omap (recordOfRow Date_parse) data
  /\ parseCSVData Date_parse (data ++ more)
     = parseCSVData Date_parse data ++ parseCSVData Date_parse more.
Proof.
  assert (forall l, parseCSVData Date_parse l = omap (recordOfRow Date_parse) l) as H.
  { intros l. unfold parseCSVData, parseRows. rewrite forEachRow_records. reflexivity. }
  split; [apply H |]. rewrite !H. apply omap_app.
Qed.

Lemma forEachRow_errors index data : forall st,
  exists new,
    (forEachRow Date_parse index data st).2 = st.2 ++ new
    /\ Forall (fun e => exists n reason,
                 Z.of_nat index + 1 <= n <= Z.of_nat index + Z.of_nat (length data)
                 /\ e = "Row " +:+ pretty n +:+ ": " +:+ reason) new.
Proof.
  revert index. induction data as [|row data IH]; intros index [records errors];
    cbn [forEachRow snd length].
  - exists []. rewrite app_nil_r. split; [reflexivity | constructor].
  - destruct (processRow_cases Date_parse index row records errors)
      as [[r E] | [e E]]; rewrite E.
    + destruct (IH (S index) (records ++ [r], errors)) as (new & -> & H).
      exists new. split; [reflexivity |].
      eapply Forall_impl; [exact H |]. intros e (n & reason & Hn & ->).
      exists n, reason. split; [lia | reflexivity].
    + destruct (IH (S index) (records, errors ++ [e])) as (new & -> & H).
      exists (e :: new). cbn [snd]. rewrite <- app_assoc. split; [reflexivity |].
      constructor.
      * destruct (processRow_error_tag Date_parse index row records errors e E)
          as [reason ->].
        exists (Z.of_nat index + 1), reason. split; [lia | reflexivity].
      * eapply Forall_impl; [exact H |]. intros e' (n & reason & Hn & ->).
        exists n, reason. split; [lia | reflexivity].
Qed.

(** X16: every row of a table ends as one record or as one error, and every error
    starts with the number, counted from 1, of a row of the table. *)
Theorem parseRows_errors (data : list Row) :
  (length (parseRows Date_parse data).1 + length (parseRows Date_parse data).2
   = length data)%nat
  /\ Forall (fun e => exists n reason,
               1 <= n <= Z.of_nat (length data)
               /\ e = "Row " +:+ pretty n +:+ ": " +:+ reason)
       (parseRows Date_parse data).2.
Proof.
  split.
  - unfold parseRows. rewrite forEachRow_counts. reflexivity.
  - unfold parseRows. destruct (forEachRow_errors 0 data ([], [])) as (new & -> & H).
    exact H.
Qed.

End WithHostParser.

End BatchFacts.


Module RouteFacts.
Import JS JSFacts Parser Aggregator AggregatorFacts Routes Notions.

Lemma length_append s1 s2 :
  String.length (s1 +:+ s2) = (String.length s1 + String.length s2)%nat.
Proof.
  induction s1 as [|c r IH]; [reflexivity |].
  change (S (String.length (r +:+ s2)) = S (String.length r + String.length s2)).
  rewrite IH. reflexivity.
Qed.

Lemma substring_all s : String.substring 0 (String.length s) s = s.
Proof. induction s as [|c r IH]; simpl; [reflexivity | rewrite IH; reflexivity]. Qed.

Lemma substring_append s1 s2 :
  String.substring (String.length s1) (String.length s2) (s1 +:+ s2) = s2.
Proof.
  induction s1 as [|c r IH]; [apply substring_all |].
  change (String.substring (String.length r) (String.length s2) (r +:+ s2) = s2).
  exact IH.
Qed.

Lemma endsWith_append s suffix : endsWith (s +:+ suffix) suffix = true.
Proof.
  unfold endsWith. rewrite length_append.
  replace (String.length s + String.length suffix - String.length suffix)%nat
    with (String.length s) by lia.
  rewrite substring_append, String.eqb_refl.
  rewrite andb_true_r. apply Nat.leb_le. lia.
Qed.

(** X17: the answers of the upload route.  It answers 200 exactly when it answers
    with a result, and then the file passed the filter, its table was read,
    at least one row was accepted, the result is the analysis of the accepted
    rows and its error list is empty, whatever rows were rejected.  A table
    of which no row is accepted is answered 400.  A file is let through by
    its type or by its name alone. *)
Theorem uploadRoute_answers (Date_parse : string -> option Z) (now : nat -> Z)
    (upload : option UploadedFile) (k : nat) :
  let r := (uploadRoute Date_parse now upload k).1 in
  (status r = 200 <-> exists res, body r = Success res)
  /\ (forall res, body r = Success res ->
        exists f rows,
          upload = Some f /\ fileFilter f = true /\ table f = Some rows
          /\ parseCSVData Date_parse rows <> []
          /\ res = (analyzeEmployees now (parseCSVData Date_parse rows) k).1
          /\ errors res = [])
  /\ (forall f rows,
        upload = Some f -> fileFilter f = true -> table f = Some rows ->
        parseCSVData Date_parse rows = [] ->
        r = mkResponse 400 (Failure "No valid data found in CSV"))
  /\ (forall name t, fileFilter (mkFile "text/csv" name t) = true)
  /\ (forall type name t, fileFilter (mkFile type (name +:+ ".csv") t) = true).
Proof.
  cbv zeta. split; [| split; [| split; [| split]]].
  - unfold uploadRoute.
    destruct upload as [f|]; [destruct (fileFilter f); [destruct (table f) as [rows|] |] |];
      try (cbn; split; [discriminate | intros [res [=]]]).
    destruct (length (parseCSVData Date_parse rows) =? 0)%nat.
    + cbn. split; [discriminate | intros [res [=]]].
    + rewrite bind_eq. cbn [ret fst status body]. split; eauto.
  - intros res. unfold uploadRoute.
    destruct upload as [f|]; [destruct (fileFilter f) eqn:Ef;
                              [destruct (table f) as [rows|] eqn:Et |] |];
      try (cbn; discriminate).
    destruct (Nat.eqb_spec (length (parseCSVData Date_parse rows)) 0) as [E|E].
    + cbn. discriminate.
    + rewrite bind_eq. cbn [ret fst status body]. intros [= <-].
      exists f, rows. repeat split; try assumption.
      * intros E'. rewrite E' in E. apply E. reflexivity.
      * apply analyzeEmployees_errors.
  - intros f rows -> Ef Et E. unfold uploadRoute. rewrite Ef, Et, E. reflexivity.
  - intros name t. reflexivity.
  - intros type name t. unfold fileFilter. cbn [originalname].
    rewrite endsWith_append. apply orb_true_r.
Qed.

End RouteFacts.


Module RankingFacts.
Import JS JSFacts Parser Aggregator AggregatorFacts PairMapFacts OverlapFacts Notions.

Lemma insertPair_filter n p l :
  filter (fun q => totalDays q = n) (insertPair p l)
  = filter (fun q => totalDays q = n) (p :: l).
Proof.
  induction l as [|q l IH]; [reflexivity |].
  cbn [insertPair]. destruct (Z.ltb_spec (totalDays p) (totalDays q)) as [Hlt|]; [| reflexivity].
  rewrite filter_cons, IH, !(filter_cons _ p), (filter_cons _ q).
  destruct (decide (totalDays q = n)), (decide (totalDays p = n)); try reflexivity. lia.
Qed.

(** X18: the ranking keeps every pair, and pairs of equal days keep the order
    in which they were created: the pairs of any number of days are, in the
    ranked list, in the order they had before. *)
Theorem ranking_is_stable (l : list PairAggregate) (n : Z) :
  sortPairs l ≡ₚ l
  /\ filter (fun p => totalDays p = n) (sortPairs l)
     = filter (fun p => totalDays p = n) l.
Proof.
  split; [apply sortPairs_Permutation |].
  induction l as [|p l IH]; [reflexivity |].
  cbn [sortPairs foldr]. fold (sortPairs l).
  rewrite insertPair_filter, !(filter_cons _ p), IH. reflexivity.
Qed.

Lemma ceilDiv_days n : ceilDiv (n * msPerDay) msPerDay = n.
Proof.
  unfold ceilDiv. rewrite <- Z.mul_opp_l, Z.div_mul by discriminate. lia.
Qed.

(** X19: on dates that are whole days (midnights, as the dates of the ISO
    form are) the overlap is the number of days the two intervals share, the
    first and the last counted, and nothing when they share none. *)
Theorem calculateOverlap_whole_days (now : nat -> Z) (from1 to1 from2 to2 : Z) (k : nat) :
  (calculateOverlap now (from1 * msPerDay) (Some (to1 * msPerDay))
     (from2 * msPerDay) (Some (to2 * msPerDay)) k).1
  = Z.max 0 (Z.min to1 to2 - Z.max from1 from2 + 1).
Proof.
  rewrite calculateOverlap_eq. cbv zeta. cbn [orNow ret fst snd].
  assert (Z.max (from1 * msPerDay) (from2 * msPerDay) = Z.max from1 from2 * msPerDay) as ->
    by (unfold msPerDay; lia).
  assert (Z.min (to1 * msPerDay) (to2 * msPerDay) = Z.min to1 to2 * msPerDay) as ->
    by (unfold msPerDay; lia).
  rewrite <- Z.mul_sub_distr_r, ceilDiv_days.
  destruct (Z.leb_spec (Z.max from1 from2 * msPerDay) (Z.min to1 to2 * msPerDay)) as [H|H];
    unfold msPerDay in H; lia.
Qed.

End RankingFacts.


(** ** The clock reads, the overlap and the key of a pair *)

Module KeyFacts.
Import JS JSFacts Aggregator.

Lemma pretty_N_char_digit n : isDigit (pretty_N_char n) = true.
Proof.
  unfold pretty_N_char.
  repeat match goal with |- context [match ?x with _ => _ end] => destruct x end;
    reflexivity.
Qed.

Lemma pretty_N_go_digits x : forall s,
  forallb isDigit s = true -> forallb isDigit (pretty_N_go x s) = true.
Proof.
  induction (N.lt_wf_0 x) as [x _ IH]. intros s Hs.
  destruct (N.eq_0_gt_0_cases x) as [-> | Hx].
  - rewrite pretty_N_go_0. exact Hs.
  - rewrite pretty_N_go_step by exact Hx. apply IH.
    + apply N.div_lt; [exact Hx | reflexivity].
    + cbn [forallb]. rewrite pretty_N_char_digit, Hs. reflexivity.
Qed.

Lemma pretty_N_go_nonempty x : forall s,
  s <> EmptyString -> pretty_N_go x s <> EmptyString.
Proof.
  induction (N.lt_wf_0 x) as [x _ IH]. intros s Hs.
  destruct (N.eq_0_gt_0_cases x) as [-> | Hx].
  - rewrite pretty_N_go_0. exact Hs.
  - rewrite pretty_N_go_step by exact Hx. apply IH.
    + apply N.div_lt; [exact Hx | reflexivity].
    + discriminate.
Qed.

Lemma pretty_positive_digits (p : positive) :
  forallb isDigit (pretty p) = true /\ pretty p <> EmptyString.
Proof.
  unfold pretty, pretty_positive, pretty, pretty_N.
  destruct (decide (N.pos p = 0%N)) as [E|_]; [discriminate E |].
  rewrite (pretty_N_go_step (N.pos p)) by reflexivity.
  split.
  - apply pretty_N_go_digits. cbn [forallb]. rewrite pretty_N_char_digit. reflexivity.
  - apply pretty_N_go_nonempty. discriminate.
Qed.

(** A number is written as its digits, after a minus sign when it is
    negative. *)
Lemma pretty_Z_shape (z : Z) :
  exists ds, forallb isDigit ds = true /\ ds <> EmptyString
             /\ pretty z = if z <? 0 then String "-" ds else ds.
Proof.
  destruct z as [|p|p].
  - exists "0". repeat split. discriminate.
  - exists (pretty p). destruct (pretty_positive_digits p). auto.
  - exists (pretty p). destruct (pretty_positive_digits p). auto.
Qed.

(** Digits, a dash and a rest are read back in one way. *)
Lemma digits_dash_inj d : forall d' r r',
  forallb isDigit d = true -> forallb isDigit d' = true ->
  d +:+ String "-" r = d' +:+ String "-" r' -> d = d' /\ r = r'.
Proof.
  induction d as [|c d IH]; intros [|c' d'] r r' Hd Hd' E.
  - injection E as ->. auto.
  - exfalso. injection E as <- _. simpl in Hd'. discriminate Hd'.
  - exfalso. injection E as -> _. simpl in Hd. discriminate Hd.
  - injection E as -> E. simpl in Hd, Hd'.
    apply andb_true_iff in Hd as [_ Hd]. apply andb_true_iff in Hd' as [_ Hd'].
    destruct (IH d' r r' Hd Hd' E) as [-> ->]. auto.
Qed.

Lemma pretty_dash_inj (m m' M M' : Z) :
  pretty m +:+ "-" +:+ pretty M = pretty m' +:+ "-" +:+ pretty M' ->
  m = m' /\ M = M'.
Proof.
  destruct (pretty_Z_shape m) as (d & Hd & Hne & Em).
  destruct (pretty_Z_shape m') as (d' & Hd' & Hne' & Em').
  intros E.
  assert (pretty m = pretty m' /\ pretty M = pretty M') as [E1 E2].
  { rewrite Em, Em' in *.
    destruct (m <? 0), (m' <? 0).
    - injection E as E. destruct (digits_dash_inj _ _ _ _ Hd Hd' E) as [-> ->]. auto.
    - exfalso. destruct d' as [|c' d']; [congruence |].
      injection E as <- _. simpl in Hd'. discriminate Hd'.
    - exfalso. destruct d as [|c d]; [congruence |].
      injection E as -> _. simpl in Hd. discriminate Hd.
    - destruct (digits_dash_inj _ _ _ _ Hd Hd' E) as [-> ->]. auto. }
  split; apply (inj pretty); assumption.
Qed.

(** Two pairs have the same key exactly when they have the same smaller and
    the same larger id. *)
Lemma pairKey_inj a b c d :
  pairKey a b = pairKey c d <-> Z.min a b = Z.min c d /\ Z.max a b = Z.max c d.
Proof.
  unfold pairKey. split.
  - apply pretty_dash_inj.
  - intros [-> ->]. reflexivity.
Qed.

End KeyFacts.


Module PairingFacts.
Import JS JSFacts Parser Aggregator AggregatorFacts MapFacts KeyFacts Notions.

Section WithClock.

Variable now : nat -> Z.

(** An end is its date or, when it is open, what the clock shows at the
    read, which is then used up. *)
Lemma orNow_read e k :
  orNow now e k = (effectiveEnd (now k) e, (k + reads e)%nat).
Proof.
  destruct e; cbn [orNow ret newDate effectiveEnd default from_option id reads].
  - rewrite Nat.add_0_r. reflexivity.
  - rewrite Nat.add_1_r. reflexivity.
Qed.

(** [calculateOverlap] with its reads of the clock told apart: the first
    end is read at [k], the second after it. *)
Lemma calculateOverlap_reads start1 end1 start2 end2 k :
  let s := Z.max start1 start2 in
  let e := Z.min (effectiveEnd (now k) end1)
                 (effectiveEnd (now (k + reads end1)%nat) end2) in
  calculateOverlap now start1 end1 start2 end2 k
  = (if s <=? e then ceilDiv (e - s) msPerDay + 1 else 0,
     (k + reads end1 + reads end2)%nat).
Proof.
  cbv zeta. rewrite calculateOverlap_eq. cbv zeta.
  repeat (rewrite orNow_read; cbn [fst snd]).
  reflexivity.
Qed.

(** The body of the loops with its reads told apart: those of the overlap,
    and, when the overlap is positive, as many again for the interval of the
    detail. *)
Lemma pairStep_reads projectId e1 e2 pairMap k :
  let n := (reads (dateTo e1) + reads (dateTo e2))%nat in
  let ov := (calculateOverlap now (dateFrom e1) (dateTo e1) (dateFrom e2) (dateTo e2) k).1 in
  let key := pairKey (empId e1) (empId e2) in
  let d := mkDetail projectId ov (Z.max (dateFrom e1) (dateFrom e2))
             (Z.min (effectiveEnd (now (k + n)%nat) (dateTo e1))
                    (effectiveEnd (now (k + n + reads (dateTo e1))%nat) (dateTo e2))) in
  pairStep now projectId e1 e2 pairMap k
  = if 0 <? ov then
      (update key (pushDetail d)
         (update key (addDays ov)
            (if has key pairMap then pairMap
             else set key (mkPair (Z.min (empId e1) (empId e2))
                             (Z.max (empId e1) (empId e2)) 0 []) pairMap)),
       (k + n + n)%nat)
    else (pairMap, (k + n)%nat).
Proof.
  cbv zeta. rewrite pairStep_eq. cbv zeta.
  rewrite calculateOverlap_reads. cbv zeta. cbn [fst snd].
  repeat (rewrite orNow_read; cbn [fst snd]).
  rewrite !Nat.add_assoc. reflexivity.
Qed.

(** The aggregate under the key after the body of the loops, and the other
    keys. *)
Lemma pairStep_get projectId e1 e2 pairMap k :
  let n := (reads (dateTo e1) + reads (dateTo e2))%nat in
  let ov := (calculateOverlap now (dateFrom e1) (dateTo e1) (dateFrom e2) (dateTo e2) k).1 in
  let key := pairKey (empId e1) (empId e2) in
  let d := mkDetail projectId ov (Z.max (dateFrom e1) (dateFrom e2))
             (Z.min (effectiveEnd (now (k + n)%nat) (dateTo e1))
                    (effectiveEnd (now (k + n + reads (dateTo e1))%nat) (dateTo e2))) in
  0 < ov ->
  get key (pairStep now projectId e1 e2 pairMap k).1
  = Some (match get key pairMap with
          | Some p => mkPair (emp1 p) (emp2 p) (totalDays p + ov) (commonProjects p ++ [d])
          | None => mkPair (Z.min (empId e1) (empId e2)) (Z.max (empId e1) (empId e2))
                      ov [d]
          end)
  /\ forall key', key' <> key ->
       get key' (pairStep now projectId e1 e2 pairMap k).1 = get key' pairMap.
Proof.
  cbv zeta. intros Hov. rewrite pairStep_reads. cbv zeta.
  destruct (Z.ltb_spec 0 (calculateOverlap now (dateFrom e1) (dateTo e1)
                            (dateFrom e2) (dateTo e2) k).1) as [_|]; [| lia].
  cbn [fst]. split.
  - rewrite !get_update_eq.
    destruct (has (pairKey (empId e1) (empId e2)) pairMap) eqn:E.
    + rewrite has_get in E. apply bool_decide_eq_true in E as [p ->]. reflexivity.
    + rewrite get_set_eq. rewrite has_get in E. apply bool_decide_eq_false in E.
      apply eq_None_not_Some in E. rewrite E. reflexivity.
  - intros key' Hne. rewrite !get_update_ne by congruence.
    destruct (has _ pairMap); [reflexivity |]. apply get_set_ne. congruence.
Qed.

Lemma pairStep_swap projectId e1 e2 pairMap k :
  pairStep now projectId e1 e2 pairMap k = pairStep now projectId e2 e1 pairMap k.
Proof.
  rewrite !pairStep_eq.
  rewrite (calculateOverlap_comm now (dateFrom e1) (dateTo e1) (dateFrom e2) (dateTo e2) k).
  assert (pairKey (empId e1) (empId e2) = pairKey (empId e2) (empId e1)) as ->
    by (apply pairKey_inj; lia).
  rewrite (Z.min_comm (empId e1) (empId e2)), (Z.max_comm (empId e1) (empId e2)).
  rewrite (Z.max_comm (dateFrom e1) (dateFrom e2)).
  destruct (0 <? _); [| reflexivity].
  destruct (dateTo e1), (dateTo e2); cbn [orNow ret newDate fst snd];
    try reflexivity;
    match goal with |- context [Z.min ?x ?y] => rewrite (Z.min_comm x y) end;
    reflexivity.
Qed.

End WithClock.

End PairingFacts.


Module ReadFacts.
Import JS JSFacts Parser Aggregator AggregatorFacts MapFacts KeyFacts PairingFacts Notions.

Section WithClock.

Variable now : nat -> Z.

(** *** The reads of the clock only go on *)

Lemma pairStep_count pid e1 e2 pairMap k :
  (k <= (pairStep now pid e1 e2 pairMap k).2)%nat.
Proof.
  rewrite pairStep_reads. cbv zeta. destruct (0 <? _); cbn [snd]; lia.
Qed.

Lemma innerLoop_count pid e1 later : forall pairMap k,
  (k <= (innerLoop now pid e1 later pairMap k).2)%nat.
Proof.
  induction later as [|e2 later IH]; intros pairMap k; cbn [innerLoop].
  - cbn. lia.
  - rewrite bind_eq. etrans; [apply (pairStep_count pid e1 e2 pairMap k) | apply IH].
Qed.

Lemma outerLoop_count pid employees : forall pairMap k,
  (k <= (outerLoop now pid employees pairMap k).2)%nat.
Proof.
  induction employees as [|e1 later IH]; intros pairMap k; cbn [outerLoop].
  - cbn. lia.
  - rewrite bind_eq. etrans; [apply (innerLoop_count pid e1 later pairMap k) | apply IH].
Qed.

Lemma forEachGroup_count groups : forall pairMap k,
  (k <= (forEachGroup now groups pairMap k).2)%nat.
Proof.
  induction groups as [|[pid employees] groups IH]; intros pairMap k; cbn [forEachGroup].
  - cbn. lia.
  - rewrite bind_eq. etrans; [apply (outerLoop_count pid employees pairMap k) | apply IH].
Qed.

(** *** The engine under a clock that stands still while it is read *)

Section StillWhileRead.

Variable asOf : Z.

Lemma effectiveEnd_still e i :
  (e = None -> now i = asOf) -> effectiveEnd (now i) e = effectiveEnd asOf e.
Proof. destruct e; cbn; [reflexivity | auto]. Qed.

Lemma pairStep_still pid e1 e2 pairMap k :
  (forall i, (k <= i < (pairStep now pid e1 e2 pairMap k).2)%nat -> now i = asOf) ->
  (pairStep now pid e1 e2 pairMap k).1 = pairStepAsOf asOf pid e1 e2 pairMap.
Proof.
  intros H.
  assert (forall i, (k <= i < k + (reads (dateTo e1) + reads (dateTo e2)))%nat ->
            now i = asOf) as Hlow.
  { intros i Hi. apply H. rewrite pairStep_reads. cbv zeta.
    destruct (0 <? _); cbn [snd]; lia. }
  assert ((calculateOverlap now (dateFrom e1) (dateTo e1) (dateFrom e2) (dateTo e2) k).1
          = calculateOverlapAsOf asOf (dateFrom e1) (dateTo e1) (dateFrom e2) (dateTo e2))
    as Hov.
  { rewrite calculateOverlap_reads. cbv zeta. cbn [fst]. unfold calculateOverlapAsOf.
    rewrite !effectiveEnd_still; [reflexivity | |].
    - intros E. apply Hlow. rewrite E. cbn [reads]. lia.
    - intros E. apply Hlow. rewrite E. cbn [reads]. lia. }
  rewrite pairStep_reads in H |- *. cbv zeta in H |- *. rewrite Hov in H |- *.
  unfold pairStepAsOf.
  destruct (0 <? _); [| reflexivity]. cbn [fst snd] in H |- *.
  rewrite !effectiveEnd_still; [reflexivity | |].
  - intros E. apply H. rewrite E. cbn [reads]. lia.
  - intros E. apply H. rewrite E. cbn [reads]. lia.
Qed.

Lemma innerLoop_still pid e1 later : forall pairMap k,
  (forall i, (k <= i < (innerLoop now pid e1 later pairMap k).2)%nat -> now i = asOf) ->
  (innerLoop now pid e1 later pairMap k).1
  = foldl (fun pm e2 => pairStepAsOf asOf pid e1 e2 pm) pairMap later.
Proof.
  induction later as [|e2 later IH]; intros pairMap k H; cbn [innerLoop foldl] in *.
  - reflexivity.
  - rewrite bind_eq in H |- *.
    pose proof (pairStep_count pid e1 e2 pairMap k) as C1.
    pose proof (innerLoop_count pid e1 later (pairStep now pid e1 e2 pairMap k).1
                  (pairStep now pid e1 e2 pairMap k).2) as C2.
    rewrite IH by (intros i Hi; apply H; lia).
    rewrite pairStep_still by (intros i Hi; apply H; lia).
    reflexivity.
Qed.

Lemma outerLoop_still pid employees : forall pairMap k,
  (forall i, (k <= i < (outerLoop now pid employees pairMap k).2)%nat -> now i = asOf) ->
  (outerLoop now pid employees pairMap k).1
  = groupPairsAsOf asOf pid employees pairMap.
Proof.
  induction employees as [|e1 later IH]; intros pairMap k H;
    cbn [outerLoop groupPairsAsOf] in *.
  - reflexivity.
  - rewrite bind_eq in H |- *.
    pose proof (innerLoop_count pid e1 later pairMap k) as C1.
    pose proof (outerLoop_count pid later (innerLoop now pid e1 later pairMap k).1
                  (innerLoop now pid e1 later pairMap k).2) as C2.
    rewrite IH by (intros i Hi; apply H; lia).
    rewrite innerLoop_still by (intros i Hi; apply H; lia).
    reflexivity.
Qed.

Lemma forEachGroup_still groups : forall pairMap k,
  (forall i, (k <= i < (forEachGroup now groups pairMap k).2)%nat -> now i = asOf) ->
  (forEachGroup now groups pairMap k).1
  = foldl (fun pm g => groupPairsAsOf asOf g.1 g.2 pm) pairMap groups.
Proof.
  induction groups as [|[pid employees] groups IH]; intros pairMap k H;
    cbn [forEachGroup foldl] in *.
  - reflexivity.
  - rewrite bind_eq in H |- *.
    pose proof (outerLoop_count pid employees pairMap k) as C1.
    pose proof (forEachGroup_count groups (outerLoop now pid employees pairMap k).1
                  (outerLoop now pid employees pairMap k).2) as C2.
    rewrite IH by (intros i Hi; apply H; lia).
    rewrite outerLoop_still by (intros i Hi; apply H; lia).
    reflexivity.
Qed.

Lemma analyzeEmployees_still data k :
  (forall i, (k <= i < (analyzeEmployees now data k).2)%nat -> now i = asOf) ->
  (analyzeEmployees now data k).1 = analyzeEmployeesAsOf asOf data.
Proof.
  unfold analyzeEmployees, analyzeEmployeesAsOf. rewrite bind_eq. cbn [ret fst snd].
  intros H. rewrite forEachGroup_still by exact H. reflexivity.
Qed.

End StillWhileRead.

End WithClock.

End ReadFacts.


Module EngineFacts.
Import JS JSFacts Parser Aggregator AggregatorFacts MapFacts KeyFacts PairingFacts
  ReadFacts Notions.

(** C4 (as the code behaves): the engine reads the clock anew at every use of
    an open end.  [calculateOverlap] reads it once for each open end, the
    first end before the second; when the overlap is positive the body of the
    loops reads it once more for each open end, for the interval of the
    detail; otherwise it reads no more.  When all the reads an analysis makes
    show one moment, its result is that of the engine with that one moment
    for every open end. *)
Theorem clock_read_at_each_use_refines_asOf (now : nat -> Z) (asOf : Z)
    (data : list AssignmentRecord) (projectId : Z) (e1 e2 : AssignmentRecord)
    (pairMap : list (string * PairAggregate)) (k : nat) :
  let n := (reads (dateTo e1) + reads (dateTo e2))%nat in
  let s := Z.max (dateFrom e1) (dateFrom e2) in
  let e := Z.min (effectiveEnd (now k) (dateTo e1))
                 (effectiveEnd (now (k + reads (dateTo e1))%nat) (dateTo e2)) in
  let ov := if s <=? e then ceilDiv (e - s) msPerDay + 1 else 0 in
  let key := pairKey (empId e1) (empId e2) in
  let d := mkDetail projectId ov s
             (Z.min (effectiveEnd (now (k + n)%nat) (dateTo e1))
                    (effectiveEnd (now (k + n + reads (dateTo e1))%nat) (dateTo e2))) in
  calculateOverlap now (dateFrom e1) (dateTo e1) (dateFrom e2) (dateTo e2) k
  = (ov, (k + n)%nat)
  /\ pairStep now projectId e1 e2 pairMap k
     = (if 0 <? ov then
          (update key (pushDetail d)
             (update key (addDays ov)
                (if has key pairMap then pairMap
                 else set key (mkPair (Z.min (empId e1) (empId e2))
                                 (Z.max (empId e1) (empId e2)) 0 []) pairMap)),
           (k + n + n)%nat)
        else (pairMap, (k + n)%nat))
  /\ ((forall i, (k <= i < (analyzeEmployees now data k).2)%nat -> now i = asOf) ->
      (analyzeEmployees now data k).1 = analyzeEmployeesAsOf asOf data).
Proof.
  cbv zeta. split; [| split].
  - rewrite calculateOverlap_reads. cbv zeta. rewrite Nat.add_assoc. reflexivity.
  - rewrite pairStep_reads. cbv zeta. rewrite calculateOverlap_reads. cbv zeta.
    reflexivity.
  - apply analyzeEmployees_still.
Qed.

Lemma clock_read_at_each_use_refines_asOf_witness :
  (analyzeEmployees stillForFour twoOpenRecords 0%nat).2 = 4%nat
  /\ stillForFour 4 <> stillForFour 3
  /\ (analyzeEmployees stillForFour twoOpenRecords 0%nat).1
     = analyzeEmployeesAsOf 1578268800000 twoOpenRecords.
Proof.
  split; [reflexivity |]. split; [discriminate |].
  apply (clock_read_at_each_use_refines_asOf stillForFour 1578268800000 twoOpenRecords
           0 (mkRecord 0 0 0 None) (mkRecord 0 0 0 None) [] 0%nat).
  intros i [_ Hi]. change ((analyzeEmployees stillForFour twoOpenRecords 0%nat).2)
    with 4%nat in Hi.
  unfold stillForFour. destruct (Nat.ltb_spec i 4); [reflexivity | lia].
Defined.

Section WithClock.

Variable now : nat -> Z.

(** C5 (as the code behaves): for two records of a project, the first open
    end being what the clock shows at its read and the second what it shows at
    the read after, with [s] the later of the two starts and [e] the earlier
    of the two ends: when [s] is not after [e] the overlap is the ceiling of
    [e - s] in days plus one; it is one day exactly when [s] and [e] are the
    same instant, as for whole-day dates that share one boundary day, and
    more when the two intervals share more than an instant.  When [s] is
    after [e] the overlap is 0 and the pair map is left as it was. *)
Theorem overlap_of_two_records (projectId : Z) (e1 e2 : AssignmentRecord)
    (pairMap : list (string * PairAggregate)) (k : nat) (day1 day2 day3 : Z) :
  let end1 := match dateTo e1 with Some t => t | None => now k end in
  let end2 := match dateTo e2 with
              | Some t => t
              | None => now (match dateTo e1 with Some _ => k | None => S k end)
              end in
  let s := Z.max (dateFrom e1) (dateFrom e2) in
  let e := Z.min end1 end2 in
  let overlap :=
    (calculateOverlap now (dateFrom e1) (dateTo e1) (dateFrom e2) (dateTo e2) k).1 in
  (s <= e ->
     overlap = ceilDiv (e - s) msPerDay + 1
     /\ (ceilDiv (e - s) msPerDay - 1) * msPerDay < e - s <= ceilDiv (e - s) msPerDay * msPerDay
     /\ 1 <= overlap
     /\ (overlap = 1 <-> s = e))
  /\ (e < s -> overlap = 0 /\ (pairStep now projectId e1 e2 pairMap k).1 = pairMap)
  /\ (day1 <= day2 <= day3 ->
      (calculateOverlap now (day1 * msPerDay) (Some (day2 * msPerDay))
         (day2 * msPerDay) (Some (day3 * msPerDay)) k).1 = 1)
  /\ (calculateOverlap now 1383264000000 (Some 1388880000000)
        1346803200000 (Some 1383264000000) k).1 = 1
  /\ (calculateOverlap now 1383264000000 (Some 1388880000000)
        1415491200000 (Some 1420416000000) k).1 = 0.
Proof.
  cbv zeta.
  assert (forall s1 t1 s2 t2,
            (calculateOverlap now s1 (Some t1) s2 (Some t2) k).1
            = if Z.max s1 s2 <=? Z.min t1 t2
              then ceilDiv (Z.min t1 t2 - Z.max s1 s2) msPerDay + 1 else 0) as Hclosed.
  { intros. rewrite calculateOverlap_reads. reflexivity. }
  rewrite pairStep_reads. cbv zeta. rewrite calculateOverlap_reads. cbv zeta. cbn [fst].
  assert (effectiveEnd (now k) (dateTo e1)
          = match dateTo e1 with Some t => t | None => now k end) as ->
    by (destruct (dateTo e1); reflexivity).
  assert (effectiveEnd (now (k + reads (dateTo e1))%nat) (dateTo e2)
          = match dateTo e2 with
            | Some t => t
            | None => now (match dateTo e1 with Some _ => k | None => S k end)
            end) as ->.
  { destruct (dateTo e2); [reflexivity |]. destruct (dateTo e1); cbn [reads effectiveEnd default from_option id].
    - rewrite Nat.add_0_r. reflexivity.
    - rewrite Nat.add_1_r. reflexivity. }
  set (s := Z.max (dateFrom e1) (dateFrom e2)).
  set (e := Z.min _ _).
  assert (0 < msPerDay) as Hd by reflexivity.
  split; [| split; [| split; [| split]]].
  - intros Hse. destruct (Z.leb_spec s e); [| lia].
    pose proof (proj1 (ceilDiv_spec (e - s) msPerDay _ Hd) eq_refl) as Hc.
    pose proof (ceilDiv_nonneg (e - s) msPerDay Hd ltac:(lia)) as Hn.
    split; [reflexivity |]. split; [exact Hc |]. split; [lia |].
    split.
    + intros E. assert (ceilDiv (e - s) msPerDay = 0) as E0 by lia.
      rewrite E0 in Hc. lia.
    + intros <-. rewrite Z.sub_diag. reflexivity.
  - intros Hes. destruct (Z.leb_spec s e); [lia |]. split; reflexivity.
  - intros Hdays. rewrite Hclosed.
    assert (Z.max (day1 * msPerDay) (day2 * msPerDay) = day2 * msPerDay) as ->
      by (unfold msPerDay; lia).
    assert (Z.min (day2 * msPerDay) (day3 * msPerDay) = day2 * msPerDay) as ->
      by (unfold msPerDay; lia).
    rewrite Z.leb_refl, Z.sub_diag. reflexivity.
  - rewrite Hclosed. reflexivity.
  - rewrite Hclosed. reflexivity.
Qed.

(** C6: the key of a pair does not depend on the order of the two
    employees, and stands for the smaller and the larger id and nothing else:
    two pairs have one key exactly when their smaller ids and their larger ids
    are the same (218 with 143 has the key of 143 with 218).  Two records
    with a positive overlap, taken in either order, leave the same pair map:
    under their key stands the aggregate of the smaller and the larger id,
    created if it was not there, with the days added and the detail appended,
    and the aggregates of the other keys are as they were. *)
Theorem pairing_under_canonical_key (a b c d : Z) (projectId : Z) (e1 e2 : AssignmentRecord)
    (pairMap : list (string * PairAggregate)) (k : nat) :
  let n := (reads (dateTo e1) + reads (dateTo e2))%nat in
  let ov :=
    (calculateOverlap now (dateFrom e1) (dateTo e1) (dateFrom e2) (dateTo e2) k).1 in
  let key := pairKey (empId e1) (empId e2) in
  let detail :=
    mkDetail projectId ov (Z.max (dateFrom e1) (dateFrom e2))
      (Z.min (effectiveEnd (now (k + n)%nat) (dateTo e1))
             (effectiveEnd (now (k + n + reads (dateTo e1))%nat) (dateTo e2))) in
  pairKey a b = pairKey b a
  /\ (pairKey a b = pairKey c d <-> Z.min a b = Z.min c d /\ Z.max a b = Z.max c d)
  /\ pairKey 218 143 = "143-218"
  /\ pairStep now projectId e1 e2 pairMap k = pairStep now projectId e2 e1 pairMap k
  /\ (0 < ov ->
      get key (pairStep now projectId e1 e2 pairMap k).1
      = Some (match get key pairMap with
              | Some p =>
                  mkPair (emp1 p) (emp2 p) (totalDays p + ov) (commonProjects p ++ [detail])
              | None =>
                  mkPair (Z.min (empId e1) (empId e2)) (Z.max (empId e1) (empId e2))
                    ov [detail]
              end)
      /\ (forall key', key' <> key ->
            get key' (pairStep now projectId e1 e2 pairMap k).1 = get key' pairMap)
      /\ (pairStep now projectId e1 e2 [] k).1
         = [(key, mkPair (Z.min (empId e1) (empId e2)) (Z.max (empId e1) (empId e2))
                    ov [detail])])
  /\ (pairStep now 11 (mkRecord 218 11 1388880000000 (Some 1415491200000))
        (mkRecord 143 11 1388880000000 (Some 1415491200000)) [] k).1
     = [("143-218",
         mkPair 143 218 309 [mkDetail 11 309 1388880000000 1415491200000])].
Proof.
  cbv zeta. split; [apply pairKey_inj; lia |]. split; [apply pairKey_inj |].
  split; [vm_compute; reflexivity |]. split; [apply pairStep_swap |].
  split.
  - intros Hov. destruct (pairStep_get now projectId e1 e2 pairMap k Hov) as [Hget Hother].
    split; [exact Hget |]. split; [exact Hother |].
    rewrite pairStep_reads. cbv zeta.
    destruct (Z.ltb_spec 0 (calculateOverlap now (dateFrom e1) (dateTo e1)
                              (dateFrom e2) (dateTo e2) k).1) as [_|]; [| lia].
    cbn [fst]. rewrite has_nil. cbn [set]. rewrite !update_singleton.
    unfold pushDetail, addDays. cbn [emp1 emp2 totalDays commonProjects app].
    reflexivity.
  - rewrite pairStep_reads. reflexivity.
Qed.

End WithClock.

(** C5 as the specification states it fails: an interval from 1 October 2013
    to 1 November 2013 at ten and one from 1 November 2013 at eight to
    5 January 2014 share exactly one boundary day, and overlap by two days. *)
Lemma boundary_day_counts_two :
  Day 1380585600000 < Day 1383292800000
  /\ Day 1383292800000 = Day 1383300000000
  /\ Day 1383300000000 < Day 1388880000000
  /\ (calculateOverlap (fun _ => 0) 1380585600000 (Some 1383300000000)
        1383292800000 (Some 1388880000000) 0%nat).1 = 2.
Proof.
  split; [reflexivity |]. split; [reflexivity |]. split; [reflexivity |].
  vm_compute. reflexivity.
Qed.

End EngineFacts.
